(** * Birthday reminder: the delivery reliability pipeline

    A shallow embedding of the ledger ([BirthdayService]), the lock
    service ([LockService]), the queue producer and consumer
    ([BirthdayProducerService], [BirthdayConsumerService]), the scanner
    ([BirthdaySchedulerService]) with the directory query it makes
    ([UsersService]), the recovery job ([RecoveryService]) and the error
    classification of the notifier client ([EmailService]), followed by
    the properties of the specification that are settled on them and by
    further properties of the same code.

    Conventions.
    - Instants ([Date], [moment]) are milliseconds since the epoch, in [Z].
    - [async] methods are functions in the monad [M]: they thread the
      [World] (database tables, Redis keys with their expiry, broker
      queues and timers, the scripted replies of the e-mail API) and may
      throw an [Error]; [try]/[catch]/[finally] are combinators of [M].
    - Every call of the per-record paths that reaches the ledger table,
      the broker or the e-mail API leaves an [Event] in the [trace] of
      the world, reads included, so that "is called" and "is not
      consulted" can be stated. The query on the users table and
      [getUnsentMessages] are reads that leave none.
    - Other instances share the database: the statements that they get
      to run between two statements of this instance are listed in
      [others], and each repository call lets the next one in first.
    - Time zones are fixed offsets from UTC, and the server process has
      one of its own ([serverUtcOffset]); [Date.getFullYear] reads the
      latter.
    - Logger calls have no effect on any of this and are left out. *)

From Stdlib Require Import ZArith List String Lia Permutation Sorted.
From stdpp Require Import base gmap strings list pretty.
Import ListNotations.
Local Open Scope Z_scope.

(* ===================================================================== *)
(** ** Data model *)
(* ===================================================================== *)

(** [enum MessageStatus] of birthday-message.entity.ts *)
Inductive MessageStatus : Type := PENDING | QUEUED | SENT | FAILED.

Definition MessageStatus_eqb (a b : MessageStatus) : bool :=
  match a, b with
  | PENDING, PENDING | QUEUED, QUEUED | SENT, SENT | FAILED, FAILED => true
  | _, _ => false
  end.

(** [enum MessageType] of message-type.enum.ts *)
Inductive MessageType : Type := BIRTHDAY | ANNIVERSARY.

(** The columns of [User] that the pipeline reads. *)
Record User : Type := mkUser {
  usrId : string;
  firstName : string;
  lastName : string;
  email : string;
  timezone : string;
  birthdayMonth : Z;
  birthdayDay : Z
}.

(** [class BirthdayMessage], one row of [birthday_messages]. The [user]
    relation is not a column: it is joined on demand, see [Loaded]. *)
Record BirthdayMessage : Type := mkBirthdayMessage {
  msgId : string;
  userId : string;
  year : Z;
  status : MessageStatus;
  messageType : MessageType;
  scheduledFor : Z;
  sentAt : option Z;
  attempts : Z;
  lastError : option string;
  createdAt : Z;
  updatedAt : Z
}.

(** A row read with [relations: ['user']] (a left join on [user_id]). *)
Record Loaded : Type := mkLoaded {
  row : BirthdayMessage;
  user : option User
}.

(** [interface BirthdayMessagePayload] *)
Record BirthdayMessagePayload : Type := mkPayload {
  messageId : string;
  payloadUserId : string;
  payloadEmail : string;
  fullName : string
}.

(** A JavaScript [Error]: its message, and the [code] that a database
    driver error carries. *)
Record Error : Type := mkError {
  message : string;
  code : option string
}.

Definition newError (msg : string) : Error := mkError msg None.

(** What a call into a collaborator looks like from outside. The [trace]
    of the world lists them, most recent first. *)
Inductive Event : Type :=
| DbFindByUserYear (uid : string) (y : Z)
| DbFindById (mid : string)
| DbFindFailed (limit : nat)
| DbQueryPending
| DbInsert (m : BirthdayMessage)
| DbInsertRejected (uid : string) (y : Z)
| DbIncrementAttempts (mid : string)
| DbUpdateStatus (mid : string) (st : MessageStatus)
| QueuePublish (p : BirthdayMessagePayload)
| HttpPost (to name : string)
| Observed (by_id : string) (snapshot : option BirthdayMessage).

(** A statement that another instance runs on the shared database between
    two statements of this one. *)
Inductive Concurrent : Type :=
| Idle
| OtherInsert (m : BirthdayMessage)
| OtherRead (mid : string).

(** Everything the services share or talk to. *)
Record World : Type := mkWorld {
  clock : Z;                                (* Date.now() *)
  serverUtcOffset : Z;                      (* minutes east of UTC of the process *)
  tzdata : gmap string Z;                   (* zone name -> minutes east of UTC *)
  usersTable : list User;
  birthday_messages : list BirthdayMessage;
  uuids : list string;                      (* what the database will generate *)
  redis : gmap string Z;                    (* key -> instant at which it expires *)
  producerChannel : bool;                   (* this.channel !== null *)
  birthdayQueue : list BirthdayMessagePayload;   (* ready entries *)
  inFlight : list BirthdayMessagePayload;        (* delivered, not yet settled *)
  birthdayDlq : list BirthdayMessagePayload;
  timers : list (Z * BirthdayMessagePayload);    (* setTimeout(nack): due instant *)
  emailApi : list (option Error);           (* outcome of each coming POST *)
  others : list Concurrent;
  trace : list Event
}.

Definition set_clock (v : Z) (w : World) : World :=
  mkWorld v (serverUtcOffset w) (tzdata w) (usersTable w) (birthday_messages w)
    (uuids w) (redis w) (producerChannel w) (birthdayQueue w) (inFlight w)
    (birthdayDlq w) (timers w) (emailApi w) (others w) (trace w).

Definition set_messages (v : list BirthdayMessage) (w : World) : World :=
  mkWorld (clock w) (serverUtcOffset w) (tzdata w) (usersTable w) v
    (uuids w) (redis w) (producerChannel w) (birthdayQueue w) (inFlight w)
    (birthdayDlq w) (timers w) (emailApi w) (others w) (trace w).

Definition set_uuids (v : list string) (w : World) : World :=
  mkWorld (clock w) (serverUtcOffset w) (tzdata w) (usersTable w) (birthday_messages w)
    v (redis w) (producerChannel w) (birthdayQueue w) (inFlight w)
    (birthdayDlq w) (timers w) (emailApi w) (others w) (trace w).

Definition set_redis (v : gmap string Z) (w : World) : World :=
  mkWorld (clock w) (serverUtcOffset w) (tzdata w) (usersTable w) (birthday_messages w)
    (uuids w) v (producerChannel w) (birthdayQueue w) (inFlight w)
    (birthdayDlq w) (timers w) (emailApi w) (others w) (trace w).

Definition set_queue (v : list BirthdayMessagePayload) (w : World) : World :=
  mkWorld (clock w) (serverUtcOffset w) (tzdata w) (usersTable w) (birthday_messages w)
    (uuids w) (redis w) (producerChannel w) v (inFlight w)
    (birthdayDlq w) (timers w) (emailApi w) (others w) (trace w).

Definition set_inFlight (v : list BirthdayMessagePayload) (w : World) : World :=
  mkWorld (clock w) (serverUtcOffset w) (tzdata w) (usersTable w) (birthday_messages w)
    (uuids w) (redis w) (producerChannel w) (birthdayQueue w) v
    (birthdayDlq w) (timers w) (emailApi w) (others w) (trace w).

Definition set_dlq (v : list BirthdayMessagePayload) (w : World) : World :=
  mkWorld (clock w) (serverUtcOffset w) (tzdata w) (usersTable w) (birthday_messages w)
    (uuids w) (redis w) (producerChannel w) (birthdayQueue w) (inFlight w)
    v (timers w) (emailApi w) (others w) (trace w).

Definition set_timers (v : list (Z * BirthdayMessagePayload)) (w : World) : World :=
  mkWorld (clock w) (serverUtcOffset w) (tzdata w) (usersTable w) (birthday_messages w)
    (uuids w) (redis w) (producerChannel w) (birthdayQueue w) (inFlight w)
    (birthdayDlq w) v (emailApi w) (others w) (trace w).

Definition set_emailApi (v : list (option Error)) (w : World) : World :=
  mkWorld (clock w) (serverUtcOffset w) (tzdata w) (usersTable w) (birthday_messages w)
    (uuids w) (redis w) (producerChannel w) (birthdayQueue w) (inFlight w)
    (birthdayDlq w) (timers w) v (others w) (trace w).

Definition set_others (v : list Concurrent) (w : World) : World :=
  mkWorld (clock w) (serverUtcOffset w) (tzdata w) (usersTable w) (birthday_messages w)
    (uuids w) (redis w) (producerChannel w) (birthdayQueue w) (inFlight w)
    (birthdayDlq w) (timers w) (emailApi w) v (trace w).

Definition log_event (e : Event) (w : World) : World :=
  mkWorld (clock w) (serverUtcOffset w) (tzdata w) (usersTable w) (birthday_messages w)
    (uuids w) (redis w) (producerChannel w) (birthdayQueue w) (inFlight w)
    (birthdayDlq w) (timers w) (emailApi w) (others w) (e :: trace w).

(* ===================================================================== *)
(** ** The monad of [async] methods *)
(* ===================================================================== *)

Inductive Result (A : Type) : Type :=
| Ok (a : A)
| Throw (e : Error).
Arguments Ok {A} a.
Arguments Throw {A} e.

Definition M (A : Type) : Type := World -> Result A * World.

Definition ret {A : Type} (a : A) : M A := fun w => (Ok a, w).

Definition throw {A : Type} (e : Error) : M A := fun w => (Throw e, w).

Definition bind {A B : Type} (m : M A) (k : A -> M B) : M B :=
  fun w =>
    match m w with
    | (Ok a, w') => k a w'
    | (Throw e, w') => (Throw e, w')
    end.

(** [try { body } catch (error) { handler }] *)
Definition try_catch {A : Type} (body : M A) (handler : Error -> M A) : M A :=
  fun w =>
    match body w with
    | (Ok a, w') => (Ok a, w')
    | (Throw e, w') => handler e w'
    end.

(** [try { body } finally { fin }]: [fin] runs on both exits, and the
    outcome of [body] stands unless [fin] itself throws. *)
Definition try_finally {A : Type} (body : M A) (fin : M unit) : M A :=
  fun w =>
    match body w with
    | (r, w') =>
        match fin w' with
        | (Ok _, w'') => (r, w'')
        | (Throw e, w'') => (Throw e, w'')
        end
    end.

Definition get_world : M World := fun w => (Ok w, w).

Definition modify (f : World -> World) : M unit := fun w => (Ok tt, f w).

Declare Scope async_scope.
Delimit Scope async_scope with async.
Notation "x <- m ; k" := (bind m (fun x => k))
  (at level 20, m at level 100, k at level 200, only parsing) : async_scope.
Notation "m ;; k" := (bind m (fun _ => k))
  (at level 100, k at level 200, only parsing, right associativity) : async_scope.
Local Open Scope async_scope.

Definition outcome {A : Type} (r : Result A * World) : Result A := fst r.
Definition after {A : Type} (r : Result A * World) : World := snd r.

(* ===================================================================== *)
(** ** JavaScript values and dates *)
(* ===================================================================== *)

(** [arr[i]] on an array of numbers: [undefined] ([None]) out of range. *)
Definition js_index (arr : list Z) (i : Z) : option Z :=
  if i <? 0 then None else nth_error arr (Z.to_nat i).

(** [a || b] on numbers: [undefined] and [0] are falsy. *)
Definition js_or (a b : option Z) : option Z :=
  match a with
  | Some v => if v =? 0 then b else Some v
  | None => b
  end.

Definition MS_PER_DAY : Z := 86400000.

(** The proleptic Gregorian year of the day that lies [days] days after
    1970-01-01, as [Date] computes it. *)
Definition civil_year (days : Z) : Z :=
  let z := days + 719468 in
  let era := z / 146097 in
  let doe := z - era * 146097 in
  let yoe := (doe - doe / 1460 + doe / 36524 - doe / 146096) / 365 in
  let doy := doe - (365 * yoe + yoe / 4 - yoe / 100) in
  let mp := (5 * doy + 2) / 153 in
  let m := if mp <? 10 then mp + 3 else mp - 9 in
  yoe + era * 400 + (if m <=? 2 then 1 else 0).

(** [date.getFullYear()] in a process whose zone is [offset] minutes east
    of UTC. *)
Definition getFullYear (offset : Z) (date : Z) : Z :=
  civil_year ((date + offset * 60000) / MS_PER_DAY).

(** A [moment] in a zone, stored the way moment stores it: the wall clock
    of the zone read as if it were UTC, and the zone's offset. Zones are
    fixed offsets here (no transition falls inside a call). *)
Record Moment : Type := mkMoment {
  wall : Z;
  utcOffset : Z
}.

(** [moment.tz(timezone)]: now, in that zone; an unknown name falls back
    to UTC. *)
Definition moment_tz (timezone : string) (w : World) : Moment :=
  let off := default 0 (tzdata w !! timezone) in
  mkMoment (clock w + off * 60000) off.

Definition moment_hour (h : Z) (m : Moment) : Moment :=
  mkMoment (wall m + (h - (wall m mod MS_PER_DAY) / 3600000) * 3600000) (utcOffset m).

Definition moment_minute (mi : Z) (m : Moment) : Moment :=
  mkMoment (wall m + (mi - (wall m mod 3600000) / 60000) * 60000) (utcOffset m).

Definition moment_second (s : Z) (m : Moment) : Moment :=
  mkMoment (wall m + (s - (wall m mod 60000) / 1000) * 1000) (utcOffset m).

Definition toDate (m : Moment) : Z := wall m - utcOffset m * 60000.

(* ===================================================================== *)
(** ** LockService (Redis [SET key value EX ttl NX], [DEL key]) *)
(* ===================================================================== *)

Definition redis_exists (k : string) (w : World) : bool :=
  match redis w !! k with
  | Some expiry => clock w <? expiry
  | None => false
  end.

Definition acquireLock (key : string) (ttlSeconds : Z) : M bool :=
  fun w =>
    let lockKey := "lock:" +:+ key in
    if redis_exists lockKey w
    then (Ok false, w)
    else (Ok true, set_redis (<[lockKey := clock w + ttlSeconds * 1000]> (redis w)) w).

Definition releaseLock (key : string) : M unit :=
  modify (fun w => set_redis (delete ("lock:" +:+ key) (redis w)) w).

Definition isLocked (key : string) : M bool :=
  fun w => (Ok (redis_exists ("lock:" +:+ key) w), w).

(* ===================================================================== *)
(** ** The repository of [BirthdayMessage] *)
(* ===================================================================== *)

Definition has_id (mid : string) (r : BirthdayMessage) : bool :=
  String.eqb (msgId r) mid.

Definition same_user_year (uid : string) (y : Z) (r : BirthdayMessage) : bool :=
  String.eqb (userId r) uid && (year r =? y).

Definition set_status (st : MessageStatus) (r : BirthdayMessage) : BirthdayMessage :=
  mkBirthdayMessage (msgId r) (userId r) (year r) st (messageType r) (scheduledFor r)
    (sentAt r) (attempts r) (lastError r) (createdAt r) (updatedAt r).

Definition set_sentAt (v : option Z) (r : BirthdayMessage) : BirthdayMessage :=
  mkBirthdayMessage (msgId r) (userId r) (year r) (status r) (messageType r) (scheduledFor r)
    v (attempts r) (lastError r) (createdAt r) (updatedAt r).

Definition set_attempts (v : Z) (r : BirthdayMessage) : BirthdayMessage :=
  mkBirthdayMessage (msgId r) (userId r) (year r) (status r) (messageType r) (scheduledFor r)
    (sentAt r) v (lastError r) (createdAt r) (updatedAt r).

Definition set_lastError (v : option string) (r : BirthdayMessage) : BirthdayMessage :=
  mkBirthdayMessage (msgId r) (userId r) (year r) (status r) (messageType r) (scheduledFor r)
    (sentAt r) (attempts r) v (createdAt r) (updatedAt r).

Definition set_updatedAt (v : Z) (r : BirthdayMessage) : BirthdayMessage :=
  mkBirthdayMessage (msgId r) (userId r) (year r) (status r) (messageType r) (scheduledFor r)
    (sentAt r) (attempts r) (lastError r) (createdAt r) v.

(** [UPDATE ... WHERE id = mid]: every matching row is patched, and its
    [@UpdateDateColumn] is refreshed. *)
Definition patch_rows (mid : string) (now : Z)
    (patch : BirthdayMessage -> BirthdayMessage)
    (rows : list BirthdayMessage) : list BirthdayMessage :=
  map (fun r => if has_id mid r then set_updatedAt now (patch r) else r) rows.

(** [@Unique(['userId', 'year'])] *)
Definition violates_unique (uid : string) (y : Z) (rows : list BirthdayMessage) : bool :=
  existsb (same_user_year uid y) rows.

Definition unique_violation : Error :=
  mkError "duplicate key value violates unique constraint" (Some "23505"%string).

Definition run_other (a : Concurrent) (w : World) : World :=
  match a with
  | Idle => w
  | OtherInsert m =>
      if violates_unique (userId m) (year m) (birthday_messages w) then w
      else set_messages (birthday_messages w ++ [m]) w
  | OtherRead mid =>
      log_event (Observed mid (List.find (has_id mid) (birthday_messages w))) w
  end.

(** Before each statement of this instance reaches the database, the next
    statement queued by another instance, if any, gets in. *)
Definition interleave : M unit :=
  fun w =>
    match others w with
    | [] => (Ok tt, w)
    | a :: rest => (Ok tt, run_other a (set_others rest w))
    end.

Definition join_user (w : World) (r : BirthdayMessage) : Loaded :=
  mkLoaded r (List.find (fun u => String.eqb (usrId u) (userId r)) (usersTable w)).

Definition repo_findOne_user_year (uid : string) (y : Z) : M (option BirthdayMessage) :=
  interleave ;;
  fun w => (Ok (List.find (same_user_year uid y) (birthday_messages w)),
            log_event (DbFindByUserYear uid y) w).

Definition repo_findOne_id (mid : string) : M (option Loaded) :=
  interleave ;;
  fun w => (Ok (option_map (join_user w) (List.find (has_id mid) (birthday_messages w))),
            log_event (DbFindById mid) w).

(** What [messageRepository.create({...})] holds before it is saved. *)
Record Draft : Type := mkDraft {
  draftUserId : string;
  draftYear : Z;
  draftScheduledFor : Z;
  draftStatus : MessageStatus
}.

(** [INSERT]: the database generates the id, fills the column defaults and
    the two date columns, and enforces the unique constraint. *)
Definition repo_save (d : Draft) : M BirthdayMessage :=
  interleave ;;
  fun w =>
    if violates_unique (draftUserId d) (draftYear d) (birthday_messages w)
    then (Throw unique_violation,
          log_event (DbInsertRejected (draftUserId d) (draftYear d)) w)
    else
      let saved :=
        mkBirthdayMessage (hd ""%string (uuids w)) (draftUserId d) (draftYear d)
          (draftStatus d) BIRTHDAY (draftScheduledFor d) None 0 None (clock w) (clock w) in
      (Ok saved,
       log_event (DbInsert saved)
         (set_uuids (tl (uuids w)) (set_messages (birthday_messages w ++ [saved]) w))).

Definition repo_update (mid : string) (st : MessageStatus)
    (patch : BirthdayMessage -> BirthdayMessage) : M unit :=
  interleave ;;
  modify (fun w =>
    log_event (DbUpdateStatus mid st)
      (set_messages (patch_rows mid (clock w) (fun r => set_status st (patch r))
                       (birthday_messages w)) w)).

Definition repo_increment_attempts (mid : string) (by_ : Z) : M unit :=
  interleave ;;
  modify (fun w =>
    log_event (DbIncrementAttempts mid)
      (set_messages (patch_rows mid (clock w) (fun r => set_attempts (attempts r + by_) r)
                       (birthday_messages w)) w)).

(** [ORDER BY updated_at ASC], as a stable insertion sort. *)
Fixpoint insert_by_updatedAt (r : BirthdayMessage) (rows : list BirthdayMessage)
    : list BirthdayMessage :=
  match rows with
  | [] => [r]
  | x :: rest =>
      if updatedAt r <? updatedAt x then r :: x :: rest
      else x :: insert_by_updatedAt r rest
  end.

Definition order_by_updatedAt (rows : list BirthdayMessage) : list BirthdayMessage :=
  fold_right insert_by_updatedAt [] rows.

(** [find({ where: { status: FAILED }, relations: ['user'], take: limit,
    order: { updatedAt: 'ASC' } })] *)
Definition repo_find_failed (limit : nat) : M (list Loaded) :=
  interleave ;;
  fun w =>
    (Ok (map (join_user w)
           (firstn limit
              (order_by_updatedAt
                 (List.filter (fun r => MessageStatus_eqb (status r) FAILED)
                    (birthday_messages w))))),
     log_event (DbFindFailed limit) w).

(** The query builder of [getPendingMessagesToQueue]. *)
Definition repo_query_pending : M (list Loaded) :=
  interleave ;;
  fun w =>
    (Ok (map (join_user w)
           (List.filter
              (fun r => MessageStatus_eqb (status r) PENDING && (scheduledFor r <=? clock w))
              (birthday_messages w))),
     log_event DbQueryPending w).

(* ===================================================================== *)
(** ** BirthdayService (the ledger) *)
(* ===================================================================== *)

Definition is_code (c : string) (e : Error) : bool :=
  match code e with
  | Some c' => String.eqb c' c
  | None => false
  end.

Definition createBirthdayMessage (u : User) (scheduledFor_ : Z)
    : M (option BirthdayMessage) :=
  w0 <- get_world ;
  let year_ := getFullYear (serverUtcOffset w0) scheduledFor_ in
  try_catch
    (existing <- repo_findOne_user_year (usrId u) year_ ;
     match existing with
     | Some _ => ret None
     | None =>
         saved <- repo_save (mkDraft (usrId u) year_ scheduledFor_ PENDING) ;
         ret (Some saved)
     end)
    (fun error =>
       if is_code "23505" error then ret None else throw error).

Definition markAsQueued (mid : string) : M unit :=
  repo_update mid QUEUED (fun r => r).

Definition markAsSent (mid : string) : M unit :=
  w <- get_world ;
  repo_update mid SENT (set_sentAt (Some (clock w))).

Definition markAsFailed (mid : string) (error : string) : M unit :=
  repo_increment_attempts mid 1 ;;
  repo_update mid FAILED (set_lastError (Some error)).

Definition getPendingMessagesToQueue : M (list Loaded) := repo_query_pending.

Definition getFailedMessagesForRetry (maxAttempts : Z) (limit : nat) : M (list Loaded) :=
  messages <- repo_find_failed limit ;
  ret (List.filter (fun m => attempts (row m) <? maxAttempts) messages).

Definition resetToPending (mid : string) : M unit :=
  repo_update mid PENDING (fun r => r).

Definition findById (mid : string) : M (option Loaded) := repo_findOne_id mid.

(* ===================================================================== *)
(** ** BirthdayProducerService and the broker *)
(* ===================================================================== *)

Definition publishBirthdayMessage (payload : BirthdayMessagePayload) : M unit :=
  w <- get_world ;
  if negb (producerChannel w)
  then throw (newError "RabbitMQ channel not initialized")
  else modify (fun w => log_event (QueuePublish payload)
                          (set_queue (birthdayQueue w ++ [payload]) w)).

Definition same_entry (p q : BirthdayMessagePayload) : bool :=
  String.eqb (messageId p) (messageId q).

Fixpoint settle (p : BirthdayMessagePayload) (l : list BirthdayMessagePayload)
    : list BirthdayMessagePayload :=
  match l with
  | [] => []
  | q :: rest => if same_entry p q then rest else q :: settle p rest
  end.

(** [channel.ack(msg)] *)
Definition channel_ack (msg : BirthdayMessagePayload) : M unit :=
  modify (fun w => set_inFlight (settle msg (inFlight w)) w).

(** [channel.reject(msg, false)]: the queue's dead-letter routing key
    sends the entry to [BIRTHDAY_DLQ]. *)
Definition channel_reject (msg : BirthdayMessagePayload) : M unit :=
  modify (fun w => set_dlq (birthdayDlq w ++ [msg])
                     (set_inFlight (settle msg (inFlight w)) w)).

(** [channel.nack(msg, false, true)]: back to the head of the queue. *)
Definition channel_nack_requeue (msg : BirthdayMessagePayload) (w : World) : World :=
  set_queue (msg :: birthdayQueue w) (set_inFlight (settle msg (inFlight w)) w).

(** [setTimeout(() => channel.nack(msg, false, true), delay)]; a delay
    that is not a number counts as 0. *)
Definition setTimeout_nack (msg : BirthdayMessagePayload) (delay : option Z) : M unit :=
  modify (fun w => set_timers (timers w ++ [(clock w + default 0 delay, msg)]) w).

(** The broker hands the next ready entry to the consumer. *)
Definition deliver : M (option BirthdayMessagePayload) :=
  fun w =>
    match birthdayQueue w with
    | [] => (Ok None, w)
    | p :: rest => (Ok (Some p), set_inFlight (inFlight w ++ [p]) (set_queue rest w))
    end.

(** Time passes: the clock moves on by [ms] and the timers that are due
    by then fire, in the order they were set. *)
Definition elapse (ms : Z) (w : World) : World :=
  let now := clock w + ms in
  let due := List.filter (fun t => fst t <=? now) (timers w) in
  let waiting := List.filter (fun t => negb (fst t <=? now)) (timers w) in
  fold_left (fun acc t => channel_nack_requeue (snd t) acc) due
    (set_timers waiting (set_clock now w)).

(* ===================================================================== *)
(** ** EmailService *)
(* ===================================================================== *)

(** [sendBirthdayEmail] posts to the external API; what comes back (a
    2xx, or the error that [sendMessage] ends up throwing) is read off
    the script, and an exhausted script answers 2xx. *)
Definition sendBirthdayEmail (to name : string) : M unit :=
  fun w =>
    let w' := log_event (HttpPost to name) (set_emailApi (tl (emailApi w)) w) in
    match emailApi w with
    | Some error :: _ => (Throw error, w')
    | _ => (Ok tt, w')
    end.

(* ===================================================================== *)
(** ** BirthdayConsumerService (the dispatch worker) *)
(* ===================================================================== *)

Definition MAX_RETRY_ATTEMPTS : Z := 5.
Definition RETRY_DELAYS : list Z := [1000; 5000; 15000; 60000; 300000].

Definition processMessage (payload : BirthdayMessagePayload) : M unit :=
  let lockKey := "process-" +:+ messageId payload in
  lockAcquired <- acquireLock lockKey 120 ;
  if negb lockAcquired
  then throw (newError "Could not acquire processing lock")
  else
    try_finally
      (message_ <- findById (messageId payload) ;
       match message_ with
       | None => ret tt
       | Some m =>
           if MessageStatus_eqb (status (row m)) SENT then ret tt
           else
             (sendBirthdayEmail (payloadEmail payload) (fullName payload) ;;
              markAsSent (messageId payload))
       end)
      (releaseLock lockKey).

(** [RETRY_DELAYS[attempts] || RETRY_DELAYS[RETRY_DELAYS.length - 1]] *)
Definition retryDelay (attempts_ : Z) : option Z :=
  js_or (js_index RETRY_DELAYS attempts_)
        (js_index RETRY_DELAYS (Z.of_nat (length RETRY_DELAYS) - 1)).

Definition handleFailure (msg payload : BirthdayMessagePayload) (error : Error) : M unit :=
  message_ <- findById (messageId payload) ;
  let attempts_ :=
    match message_ with
    | Some m => attempts (row m)           (* message?.attempts || 0 *)
    | None => 0
    end in
  if MAX_RETRY_ATTEMPTS <=? attempts_
  then (markAsFailed (messageId payload) (message error) ;;
        channel_reject msg)
  else (markAsFailed (messageId payload) (message error) ;;
        setTimeout_nack msg (retryDelay attempts_)).

(** The callback that [startConsuming] registers. *)
Definition onMessage (msg : BirthdayMessagePayload) : M unit :=
  let payload := msg in
  try_catch
    (processMessage payload ;; channel_ack msg)
    (fun error => handleFailure msg payload error).

(** One delivery: the broker takes the next ready entry, if any, and runs
    the callback on it. *)
Definition consumeNext : M unit :=
  next <- deliver ;
  match next with
  | Some msg => onMessage msg
  | None => ret tt
  end.

(* ===================================================================== *)
(** ** BirthdaySchedulerService: the per-recipient step *)
(* ===================================================================== *)

Definition userLockKey (u : User) (w : World) : string :=
  "birthday-user-" +:+ usrId u +:+ "-" +:+ pretty (getFullYear (serverUtcOffset w) (clock w)).

(** [moment.tz(timezone).hour(9).minute(0).second(0).toDate()] *)
Definition nineLocal (timezone_ : string) (w : World) : Z :=
  toDate (moment_second 0 (moment_minute 0 (moment_hour 9 (moment_tz timezone_ w)))).

Definition payloadFor (mid : string) (uid : string) (u : User) : BirthdayMessagePayload :=
  mkPayload mid uid (email u) (firstName u +:+ " " +:+ lastName u).

Definition createAndQueueBirthdayMessage (u : User) (timezone_ : string) : M unit :=
  w0 <- get_world ;
  userLockAcquired <- acquireLock (userLockKey u w0) 300 ;
  if negb userLockAcquired
  then ret tt
  else
    try_finally
      (w1 <- get_world ;
       let scheduledFor_ := nineLocal timezone_ w1 in
       message_ <- createBirthdayMessage u scheduledFor_ ;
       match message_ with
       | Some m =>
           publishBirthdayMessage (payloadFor (msgId m) (usrId u) u) ;;
           markAsQueued (msgId m)
       | None => ret tt
       end)
      (ret tt).   (* the finally block is empty: the lock is kept *)

(* ===================================================================== *)
(** ** RecoveryService (the reconciler) *)
(* ===================================================================== *)

(** [for (const x of xs) { await body(x) }] *)
Fixpoint forEach {A : Type} (xs : list A) (body : A -> M unit) : M unit :=
  match xs with
  | [] => ret tt
  | x :: rest => body x ;; forEach rest body
  end.

(** The body of the loop of [recoverPendingMessages]. *)
Definition recoverOne (m : Loaded) : M unit :=
  match user m with
  | None => ret tt                                   (* continue *)
  | Some u =>
      try_catch
        (publishBirthdayMessage (payloadFor (msgId (row m)) (userId (row m)) u) ;;
         markAsQueued (msgId (row m)))
        (fun _ => ret tt)                            (* logged *)
  end.

Definition recoverPendingMessages : M unit :=
  pendingMessages <- getPendingMessagesToQueue ;
  match pendingMessages with
  | [] => ret tt
  | _ => forEach pendingMessages recoverOne
  end.

(** The body of the loop of [retryFailedMessages]. *)
Definition retryOne (m : Loaded) : M unit :=
  match user m with
  | None => ret tt                                   (* continue *)
  | Some u =>
      try_catch
        (resetToPending (msgId (row m)) ;;
         publishBirthdayMessage (payloadFor (msgId (row m)) (userId (row m)) u) ;;
         markAsQueued (msgId (row m)))
        (fun _ => ret tt)                            (* logged *)
  end.

Definition retryFailedMessages : M unit :=
  failedMessages <- getFailedMessagesForRetry MAX_RETRY_ATTEMPTS 100 ;
  match failedMessages with
  | [] => ret tt
  | _ => forEach failedMessages retryOne
  end.

Definition recoverUnsentMessages : M unit :=
  let lockKey := "recovery-job-lock"%string in
  lockAcquired <- acquireLock lockKey 240 ;
  if negb lockAcquired
  then ret tt
  else
    try_finally
      (try_catch
         (recoverPendingMessages ;; retryFailedMessages)
         (fun _ => ret tt))
      (releaseLock lockKey).

(* ===================================================================== *)
(** ** Properties used in the statements, and scenarios *)
(* ===================================================================== *)

(** What a reader of the row may see if [markAsFailed mid error] is one
    indivisible update of the row [before]: nothing of it yet, or all of
    it. *)
Definition written_together (before : BirthdayMessage) (error : string)
    (snapshot : BirthdayMessage) : Prop :=
  (attempts snapshot = attempts before /\ status snapshot = status before
   /\ lastError snapshot = lastError before)
  \/
  (attempts snapshot = attempts before + 1 /\ status snapshot = FAILED
   /\ lastError snapshot = Some error).

(** A method that leaves the Redis keys and the clock as they are. *)
Definition keeps_locks {A : Type} (m : M A) : Prop :=
  forall w, redis (after (m w)) = redis w /\ clock (after (m w)) = clock w.

(** The Redis key of the processing lock of a queue entry. *)
Definition processLockKey (payload : BirthdayMessagePayload) : string :=
  "lock:" +:+ ("process-" +:+ messageId payload).

(** What the broker holds once [msg], delivered in [w], has been
    acknowledged in [w']: the entry is settled and goes nowhere else. *)
Definition acknowledged (msg : BirthdayMessagePayload) (w w' : World) : Prop :=
  inFlight w' = settle msg (inFlight w)
  /\ birthdayQueue w' = birthdayQueue w
  /\ birthdayDlq w' = birthdayDlq w
  /\ timers w' = timers w.

(** The world once the processing lock has been taken and the record has
    been read again. *)
Definition read_under_lock (payload : BirthdayMessagePayload) (w : World) : World :=
  log_event (DbFindById (messageId payload))
    (set_redis (<[processLockKey payload := clock w + 120 * 1000]> (redis w)) w).

Definition unlock (payload : BirthdayMessagePayload) (w : World) : World :=
  set_redis (delete (processLockKey payload) (redis w)) w.

(** The POST that the worker makes for an entry. *)
Definition posted (payload : BirthdayMessagePayload) (w : World) : World :=
  log_event (HttpPost (payloadEmail payload) (fullName payload))
    (set_emailApi (tl (emailApi w)) w).

(** The attempt count that [handleFailure] reads for an entry. *)
Definition attemptsRead (payload : BirthdayMessagePayload) (w : World) : Z :=
  match List.find (has_id (messageId payload)) (birthday_messages w) with
  | Some r => attempts r
  | None => 0
  end.

(** The e-mail API answers the coming POST with a 2xx. *)
Definition notifier_ok (w : World) : bool :=
  match emailApi w with
  | Some _ :: _ => false
  | _ => true
  end.

(** The row that [createBirthdayMessage u scheduledFor_] inserts in [w]. *)
Definition new_row (w : World) (u : User) (scheduledFor_ : Z) : BirthdayMessage :=
  mkBirthdayMessage (hd ""%string (uuids w)) (usrId u)
    (getFullYear (serverUtcOffset w) scheduledFor_) PENDING BIRTHDAY scheduledFor_
    None 0 None (clock w) (clock w).

(** The offset of a zone and the wall clock it shows now. *)
Definition zoneOffset (timezone_ : string) (w : World) : Z :=
  default 0 (tzdata w !! timezone_).

Definition localNow (timezone_ : string) (w : World) : Z :=
  clock w + zoneOffset timezone_ w * 60000.

(** The calendar year that the zone shows now: the recipient's current
    local year. *)
Definition localYear (timezone_ : string) (w : World) : Z :=
  getFullYear (zoneOffset timezone_ w) (clock w).

(** 09:00:00.000 of the current local day of the zone, as an instant. *)
Definition localNineSharp (timezone_ : string) (w : World) : Z :=
  (localNow timezone_ w / MS_PER_DAY) * MS_PER_DAY + 9 * 3600000
  - zoneOffset timezone_ w * 60000.

Definition alice : User :=
  mkUser "u1" "Alice" "Doe" "alice@example.com" "Pacific/Kiritimati" 1 1.

Definition http500 : Error :=
  newError "Email service error: 500 - Internal Server Error".

(** A process in UTC at 2024-12-31T19:00:00.250Z, which is 09:00:00.250
    on 2025-01-01 in Pacific/Kiritimati (UTC+14); nothing stored yet. *)
Definition newYearWorld : World :=
  mkWorld 1735671600250 0
    (<["Pacific/Kiritimati"%string := 840]> (<["Etc/UTC"%string := 0]> ∅))
    [alice] [] ["m1"%string; "m2"%string] ∅ true [] [] [] [] [] [] [].

(** Alice's record of the year, queued and never tried. *)
Definition queuedRow : BirthdayMessage :=
  mkBirthdayMessage "m1" "u1" 2024 QUEUED BIRTHDAY 1735671600000 None 0 None
    1735671600250 1735671600250.

Definition entry1 : BirthdayMessagePayload :=
  mkPayload "m1" "u1" "alice@example.com" "Alice Doe".

(** The record is in the ledger and its entry is ready in the queue. *)
Definition queuedWorld : World :=
  set_queue [entry1] (set_messages [queuedRow] newYearWorld).

(** Another worker holds the processing lock of Alice's record for one
    more minute. *)
Definition heldWorld : World :=
  set_redis (<[processLockKey entry1 := clock queuedWorld + 60000]> ∅) queuedWorld.

(** The e-mail API answers 500 to the next six POSTs. *)
Definition failingWorld : World :=
  set_emailApi (repeat (Some http500) 6) queuedWorld.

(** One delivery by the broker, then five minutes during which the timer
    that the delivery may have set fires. *)
Definition deliveryThenBackoff (w : World) : World :=
  elapse 300000 (after (consumeNext w)).

(** The number of POSTs made to the e-mail API so far. *)
Definition posts (w : World) : nat :=
  length (List.filter (fun e => match e with HttpPost _ _ => true | _ => false end)
            (trace w)).

(** A failed record of user [uid] for [y], with [n] attempts, last
    written at [t]. *)
Definition failedRow (mid uid : string) (y n t : Z) : BirthdayMessage :=
  mkBirthdayMessage mid uid y FAILED BIRTHDAY 1000 None n (Some (message http500)) 900 t.

(** Two records that exhausted their attempts long ago and one that
    failed once, later. *)
Definition starvedWorld : World :=
  set_messages
    [failedRow "d1" "u1" 2021 5 10; failedRow "d2" "u1" 2022 6 20;
     failedRow "m1" "u1" 2024 1 30]
    newYearWorld.

(** A hundred records that exhausted their attempts in the past, one per
    year, and Alice's record of 2024, failed twice, written after them. *)
Definition crowdedWorld : World :=
  set_messages
    (map (fun i => failedRow ("d" +:+ pretty i) "u1" (1900 + i) 5 (10 + i))
         (map Z.of_nat (seq 0 100))
     ++ [failedRow "m1" "u1" 2024 2 1000])
    newYearWorld.

(** Alice's record of 2024 has failed twice, and the producer has no
    channel to the broker. *)
Definition offlineWorld : World :=
  mkWorld 1735671600250 0 (tzdata newYearWorld) [alice]
    [failedRow "m1" "u1" 2024 2 1000] [] ∅ false [] [] [] [] [] [] [].

(** Alice's record of 2024 has failed twice; the producer is connected. *)
Definition retryWorld : World :=
  set_messages [failedRow "m1" "u1" 2024 2 1000] newYearWorld.

(** Nothing stored yet, and the producer has no channel to the broker. *)
Definition disconnectedWorld : World :=
  mkWorld 1735671600250 0 (tzdata newYearWorld) [alice] [] ["m1"%string] ∅ false
    [] [] [] [] [] [] [].

(** The list that the retry query of the reconciler returns in [w]. *)
Definition retryBatch (w : World) : list Loaded :=
  match outcome (getFailedMessagesForRetry MAX_RETRY_ATTEMPTS 100 w) with
  | Ok batch => batch
  | Throw _ => []
  end.

(** Record [mid] is among the loaded records that have a recipient. *)
Definition processed (mid : string) (ms : list Loaded) : bool :=
  existsb (fun m => has_id mid (row m) && match user m with Some _ => true | None => false end) ms.

(** A record is retryable when it is failed and below the ceiling. *)
Definition retryable (maxAttempts : Z) (r : BirthdayMessage) : bool :=
  MessageStatus_eqb (status r) FAILED && (attempts r <? maxAttempts).

(** The reconciler can work: nobody else writes, the producer has its
    channel, and the clock reads [c]. *)
Definition ready (c : Z) (w : World) : Prop :=
  others w = [] /\ producerChannel w = true /\ clock w = c.

(** The calls that one turn of the retry loop makes for a record, most
    recent first. *)
Definition retryCalls (m : Loaded) (u : User) : list Event :=
  [DbUpdateStatus (msgId (row m)) QUEUED;
   QueuePublish (payloadFor (msgId (row m)) (userId (row m)) u);
   DbUpdateStatus (msgId (row m)) PENDING].

(** The row once the loop has requeued it at instant [c]. *)
Definition requeuedAt (c : Z) (r : BirthdayMessage) : BirthdayMessage :=
  set_updatedAt c (set_status QUEUED r).

(* ===================================================================== *)
(** ** The rest of the pipeline: scanner, directory query, batch
       publishing, the unsent query, the e-mail client *)
(* ===================================================================== *)

(** The month (1 to 12) and the day of the month of the day that lies
    [days] days after 1970-01-01. *)
Definition civil_month (days : Z) : Z :=
  let z := days + 719468 in
  let era := z / 146097 in
  let doe := z - era * 146097 in
  let yoe := (doe - doe / 1460 + doe / 36524 - doe / 146096) / 365 in
  let doy := doe - (365 * yoe + yoe / 4 - yoe / 100) in
  let mp := (5 * doy + 2) / 153 in
  if mp <? 10 then mp + 3 else mp - 9.

Definition civil_day (days : Z) : Z :=
  let z := days + 719468 in
  let era := z / 146097 in
  let doe := z - era * 146097 in
  let yoe := (doe - doe / 1460 + doe / 36524 - doe / 146096) / 365 in
  let doy := doe - (365 * yoe + yoe / 4 - yoe / 100) in
  let mp := (5 * doy + 2) / 153 in
  doy - (153 * mp + 2) / 5 + 1.

(** The getters [hour()], [minute()], [month()] (0 to 11) and [date()]
    of a moment. *)
Definition moment_get_hour (m : Moment) : Z := (wall m mod MS_PER_DAY) / 3600000.
Definition moment_get_minute (m : Moment) : Z := (wall m mod 3600000) / 60000.
Definition moment_get_month (m : Moment) : Z := civil_month (wall m / MS_PER_DAY) - 1.
Definition moment_get_date (m : Moment) : Z := civil_day (wall m / MS_PER_DAY).

(** [utcMoment.clone().tz(tz)] for a zone of the table, by its offset. *)
Definition moment_at (utcMoment : Z) (off : Z) : Moment :=
  mkMoment (utcMoment + off * 60000) off.

(** [UsersService.findUsersWithBirthdayInTimezones]; reads of the users
    table leave no event. *)
Definition findUsersWithBirthdayInTimezones (month day : Z) (timezones : list string)
    : M (list User) :=
  match timezones with
  | [] => ret []
  | _ =>
      fun w =>
        (Ok (List.filter
               (fun u => (birthdayMonth u =? month) && (birthdayDay u =? day)
                         && existsb (String.eqb (timezone u)) timezones)
               (usersTable w)),
         w)
  end.

(** [getTimezonesAtTime]: [moment.tz.names()] is the zone table, read in
    the order the table lists it. *)
Definition getTimezonesAtTime (utcMoment targetHour targetMinute : Z) (w : World)
    : list string :=
  map fst
    (List.filter
       (fun z => (moment_get_hour (moment_at utcMoment (snd z)) =? targetHour)
                 && (moment_get_minute (moment_at utcMoment (snd z)) =? targetMinute))
       (map_to_list (tzdata w))).

Definition processBirthdaysForTimezone (timezone_ : string) : M unit :=
  try_catch
    (w <- get_world ;
     let nowInTimezone := moment_tz timezone_ w in
     let month := moment_get_month nowInTimezone + 1 in
     let day := moment_get_date nowInTimezone in
     users <- findUsersWithBirthdayInTimezones month day [timezone_] ;
     forEach users (fun u => createAndQueueBirthdayMessage u timezone_))
    (fun _ => ret tt).                                 (* logged *)

(** [checkBirthdays]; [isTestMode] is [process.env.TEST_MODE === 'true'],
    and [moment.tz.guess()] is the zone of the process. *)
Definition checkBirthdays (isTestMode : bool) : M unit :=
  let lockKey := "birthday-scheduler-lock"%string in
  lockAcquired <- acquireLock lockKey 55 ;
  if negb lockAcquired
  then ret tt
  else
    try_finally
      (try_catch
         (w <- get_world ;
          let nowUtc := clock w in
          let nowLocal := moment_at (clock w) (serverUtcOffset w) in
          let targetHour := if isTestMode then moment_get_hour nowLocal else 9 in
          let targetMinute := if isTestMode then moment_get_minute nowLocal else 0 in
          let timezonesAt9AM := getTimezonesAtTime nowUtc targetHour targetMinute w in
          match timezonesAt9AM with
          | [] => ret tt
          | _ => forEach timezonesAt9AM processBirthdaysForTimezone
          end)
         (fun _ => ret tt))                            (* logged *)
      (releaseLock lockKey).

(** [BirthdayProducerService.publishBatch] *)
Definition publishBatch (payloads : list BirthdayMessagePayload) : M unit :=
  forEach payloads publishBirthdayMessage.

(** [ORDER BY scheduled_for ASC], as a stable insertion sort. *)
Fixpoint insert_by_scheduledFor (r : BirthdayMessage) (rows : list BirthdayMessage)
    : list BirthdayMessage :=
  match rows with
  | [] => [r]
  | x :: rest =>
      if scheduledFor r <? scheduledFor x then r :: x :: rest
      else x :: insert_by_scheduledFor r rest
  end.

Definition order_by_scheduledFor (rows : list BirthdayMessage) : list BirthdayMessage :=
  fold_right insert_by_scheduledFor [] rows.

(** [getUnsentMessages]: [where: [{ status: PENDING, scheduledFor: now },
    { status: FAILED }]] is an OR of two conjunctions of equalities. *)
Definition getUnsentMessages (limit : nat) : M (list Loaded) :=
  w0 <- get_world ;
  let now := clock w0 in
  interleave ;;
  fun w =>
    (Ok (map (join_user w)
           (firstn limit
              (order_by_scheduledFor
                 (List.filter
                    (fun r => (MessageStatus_eqb (status r) PENDING && (scheduledFor r =? now))
                              || MessageStatus_eqb (status r) FAILED)
                    (birthday_messages w))))),
     w).

(** [MESSAGE_TEMPLATES] and [getMessageContent]; the enum is closed, so
    the template is always found. *)
Definition getMessageContent (type_ : MessageType) (fullName_ : string) : string :=
  match type_ with
  | BIRTHDAY => "Hey, " +:+ fullName_ +:+ " it's your birthday"
  | ANNIVERSARY => "Hey, " +:+ fullName_ +:+ " happy work anniversary!"
  end.

(** What [httpClient.post] does: it resolves with a status, or rejects
    with an axios error (its [code], the status and the [message] of the
    response body when there is a response, and its own message), or with
    an error that is not an axios error. *)
Inductive HttpReply : Type :=
| Responded (status_ : Z)
| AxiosRejected (code_ : option string) (status_ : option Z)
    (dataMessage : option string) (errorMessage : string)
| Rejected (e : Error).

(** [`${n}`] for a number that may be [undefined]. *)
Definition show_number (n : option Z) : string :=
  match n with
  | Some v => pretty v
  | None => "undefined"
  end.

(** [a || b] on strings: [undefined] and the empty string are falsy. *)
Definition js_or_string (a : option string) (b : string) : string :=
  match a with
  | Some v => if String.eqb v "" then b else v
  | None => b
  end.

(** The error that [EmailService.sendMessage] throws for a reply, if it
    throws: the entries of the script [emailApi]. *)
Definition sendMessage_throws (reply : HttpReply) : option Error :=
  match reply with
  | Responded status_ =>
      if (200 <=? status_) && (status_ <? 300) then None
      else Some (newError ("Unexpected status code: " +:+ pretty status_))
  | AxiosRejected code_ status_ dataMessage errorMessage =>
      if match code_ with Some c => String.eqb c "ECONNABORTED" | None => false end
      then Some (newError "Email service timeout")
      else Some (newError ("Email service error: " +:+ show_number status_ +:+ " - "
                           +:+ js_or_string dataMessage errorMessage))
  | Rejected e => Some e
  end.

(* ===================================================================== *)
(** ** Properties of whole runs *)
(* ===================================================================== *)

(** A relation that holds between the world before a method and the
    world after it, whatever the world. *)
Definition always {A : Type} (R : World -> World -> Prop) (m : M A) : Prop :=
  forall w, R w (after (m w)).

(** A row after some updates: its identity, owner, year, schedule, type
    and creation stamp are the same, and its attempt count is no lower. *)
Definition row_evolves (r r' : BirthdayMessage) : Prop :=
  msgId r' = msgId r /\ userId r' = userId r /\ year r' = year r
  /\ messageType r' = messageType r /\ scheduledFor r' = scheduledFor r
  /\ createdAt r' = createdAt r /\ attempts r <= attempts r'.

(** The table after some statements: the rows it had are all there, in
    place, each evolved; new rows come after them. *)
Definition ledger_evolves (rows rows' : list BirthdayMessage) : Prop :=
  exists kept extra,
    rows' = kept ++ extra /\ Forall2 row_evolves rows kept.

(** [@Unique(['userId', 'year'])] as a property of the table. *)
Definition user_year (r : BirthdayMessage) : string * Z := (userId r, year r).

Definition unique_user_year (rows : list BirthdayMessage) : Prop :=
  List.NoDup (map user_year rows).

(** Said of runs that nobody interferes with: the table evolves, and the
    new rows, if any, belong to the users [ids]. *)
Definition inserts_only_for (ids : list string) (w w' : World) : Prop :=
  others w = [] ->
  others w' = []
  /\ exists kept extra,
       birthday_messages w' = kept ++ extra
       /\ Forall2 row_evolves (birthday_messages w) kept
       /\ Forall (fun r => In (userId r) ids) extra.

(** The row that the database makes of a draft. *)
Definition inserted_row (d : Draft) (w : World) : BirthdayMessage :=
  mkBirthdayMessage (hd ""%string (uuids w)) (draftUserId d) (draftYear d)
    (draftStatus d) BIRTHDAY (draftScheduledFor d) None 0 None (clock w) (clock w).

(** The Redis key of the scanner's global lock. *)
Definition schedulerLockKey : string := "lock:" +:+ "birthday-scheduler-lock".

(** A Redis key is left as it is. *)
Definition leaves_key (k : string) (w w' : World) : Prop :=
  redis w' !! k = redis w !! k.

(** The calls that one turn of the loop of [recoverPendingMessages]
    makes for a record, most recent first. *)
Definition recoverCalls (m : Loaded) (u : User) : list Event :=
  [DbUpdateStatus (msgId (row m)) QUEUED;
   QueuePublish (payloadFor (msgId (row m)) (userId (row m)) u)].

(** The list that the pending query returns in [w]. *)
Definition pendingBatch (w : World) : list Loaded :=
  map (join_user w)
    (List.filter
       (fun r => MessageStatus_eqb (status r) PENDING && (scheduledFor r <=? clock w))
       (birthday_messages w)).

(** The producer gets its channel back. *)
Definition reconnect (w : World) : World :=
  mkWorld (clock w) (serverUtcOffset w) (tzdata w) (usersTable w) (birthday_messages w)
    (uuids w) (redis w) true (birthdayQueue w) (inFlight w)
    (birthdayDlq w) (timers w) (emailApi w) (others w) (trace w).

(** The users of a zone whose birthday is the zone's date now. *)
Definition birthdayUsers (timezone_ : string) (w : World) : list User :=
  List.filter
    (fun u => (birthdayMonth u =? moment_get_month (moment_tz timezone_ w) + 1)
              && (birthdayDay u =? moment_get_date (moment_tz timezone_ w))
              && existsb (String.eqb (timezone u)) [timezone_])
    (usersTable w).

(* ===================================================================== *)
(** ** The model on a few inputs *)
(* ===================================================================== *)

Example getFullYear_epoch :
  getFullYear 0 0 = 1970 /\ getFullYear 0 (-1) = 1969.
Proof. split; reflexivity. Qed.

(** 2000-02-29T00:00Z, and the two sides of new year 2024 in UTC. *)
Example getFullYear_calendar :
  getFullYear 0 951782400000 = 2000
  /\ getFullYear 0 1704067199999 = 2023
  /\ getFullYear 0 1704067200000 = 2024.
Proof. repeat split; reflexivity. Qed.

(** 2024-12-31T19:00:00.250Z is already 2025 at UTC+14. *)
Example getFullYear_depends_on_zone :
  getFullYear 0 1735671600250 = 2024 /\ getFullYear 840 1735671600250 = 2025.
Proof. split; reflexivity. Qed.

Example retryDelay_table :
  map retryDelay [0; 1; 2; 3; 4; 5; 9; -1]
  = map Some [1000; 5000; 15000; 60000; 300000; 300000; 300000; 300000].
Proof. reflexivity. Qed.

Example userLockKey_newYear :
  userLockKey alice newYearWorld = "birthday-user-u1-2024"%string.
Proof. reflexivity. Qed.

(** The first failed delivery of Alice's entry: one attempt recorded, the
    entry held by a timer due one second later. *)
Example first_failure :
  let w := after (consumeNext failingWorld) in
  List.find (has_id "m1") (birthday_messages w)
  = Some (mkBirthdayMessage "m1" "u1" 2024 FAILED BIRTHDAY 1735671600000 None 1
            (Some (message http500)) 1735671600250 1735671600250)
  /\ timers w = [(1735671600250 + 1000, entry1)]
  /\ birthdayQueue w = [] /\ birthdayDlq w = [].
Proof. cbn zeta. repeat split; vm_compute; reflexivity. Qed.

(* ===================================================================== *)
(** ** Running the statements of a method one by one *)
(* ===================================================================== *)

Section Quiet.
(** Nobody else touches the database while the method runs. *)
Variable w : World.
Hypothesis quiet : others w = [].

Lemma interleave_quiet : interleave w = (Ok tt, w).
Proof using quiet. unfold interleave. now rewrite quiet. Qed.

Lemma repo_findOne_user_year_quiet (uid : string) (y : Z) :
  repo_findOne_user_year uid y w
  = (Ok (List.find (same_user_year uid y) (birthday_messages w)),
     log_event (DbFindByUserYear uid y) w).
Proof using quiet.
  unfold repo_findOne_user_year, bind. now rewrite interleave_quiet.
Qed.

Lemma repo_findOne_id_quiet (mid : string) :
  repo_findOne_id mid w
  = (Ok (option_map (join_user w) (List.find (has_id mid) (birthday_messages w))),
     log_event (DbFindById mid) w).
Proof using quiet.
  unfold repo_findOne_id, bind. now rewrite interleave_quiet.
Qed.

Lemma repo_update_quiet (mid : string) (st : MessageStatus)
    (patch : BirthdayMessage -> BirthdayMessage) :
  repo_update mid st patch w
  = (Ok tt,
     log_event (DbUpdateStatus mid st)
       (set_messages (patch_rows mid (clock w) (fun r => set_status st (patch r))
                        (birthday_messages w)) w)).
Proof using quiet.
  unfold repo_update, bind. now rewrite interleave_quiet.
Qed.

Lemma repo_increment_attempts_quiet (mid : string) (n : Z) :
  repo_increment_attempts mid n w
  = (Ok tt,
     log_event (DbIncrementAttempts mid)
       (set_messages (patch_rows mid (clock w) (fun r => set_attempts (attempts r + n) r)
                        (birthday_messages w)) w)).
Proof using quiet.
  unfold repo_increment_attempts, bind. now rewrite interleave_quiet.
Qed.

End Quiet.

Lemma bind_get_world {B : Type} (k : World -> M B) (w : World) :
  bind get_world k w = k w w.
Proof. reflexivity. Qed.

Lemma bind_ok {A B : Type} (m : M A) (k : A -> M B) (w w' : World) (a : A) :
  m w = (Ok a, w') -> bind m k w = k a w'.
Proof. intros H. unfold bind. now rewrite H. Qed.

Lemma acquireLock_free (key : string) (ttlSeconds : Z) (w : World) :
  redis_exists ("lock:" +:+ key) w = false ->
  acquireLock key ttlSeconds w
  = (Ok true,
     set_redis (<["lock:" +:+ key := clock w + ttlSeconds * 1000]> (redis w)) w).
Proof. intros H. unfold acquireLock. now rewrite H. Qed.

Lemma acquireLock_held (key : string) (ttlSeconds : Z) (w : World) :
  redis_exists ("lock:" +:+ key) w = true ->
  acquireLock key ttlSeconds w = (Ok false, w).
Proof. intros H. unfold acquireLock. now rewrite H. Qed.

(** Goals of the form [others _ = []] after some statements have run. *)
Ltac still_quiet := cbn; assumption.

(* ===================================================================== *)
(** ** Rows and patches *)
(* ===================================================================== *)

Lemma find_patch_rows (mid : string) (now : Z)
    (f : BirthdayMessage -> BirthdayMessage) (rows : list BirthdayMessage) :
  (forall r, msgId (f r) = msgId r) ->
  List.find (has_id mid) (patch_rows mid now f rows)
  = option_map (fun r => set_updatedAt now (f r)) (List.find (has_id mid) rows).
Proof.
  intros Hid. induction rows as [|x rest IH]; [reflexivity|].
  cbn. destruct (has_id mid x) eqn:Hx.
  - cbn. unfold has_id in *. cbn. rewrite Hid, Hx. reflexivity.
  - cbn. rewrite Hx. exact IH.
Qed.

Lemma find_patch_rows_other (mid mid' : string) (now : Z)
    (f : BirthdayMessage -> BirthdayMessage) (rows : list BirthdayMessage) :
  (forall r, msgId (f r) = msgId r) ->
  mid <> mid' ->
  List.find (has_id mid') (patch_rows mid now f rows) = List.find (has_id mid') rows.
Proof.
  intros Hid Hne. induction rows as [|x rest IH]; [reflexivity|].
  cbn. destruct (has_id mid x) eqn:Hx.
  - unfold has_id in *. cbn. rewrite Hid.
    apply String.eqb_eq in Hx.
    assert (Hx' : String.eqb (msgId x) mid' = false)
      by (apply String.eqb_neq; congruence).
    rewrite Hx'. exact IH.
  - cbn. destruct (has_id mid' x); [reflexivity | exact IH].
Qed.

(** [markAsFailed], once both of its statements have run. *)
Lemma markAsFailed_quiet (w : World) (mid error : string) :
  others w = [] ->
  markAsFailed mid error w
  = (Ok tt,
     log_event (DbUpdateStatus mid FAILED)
       (log_event (DbIncrementAttempts mid)
          (set_messages
             (patch_rows mid (clock w)
                (fun r => set_status FAILED (set_lastError (Some error) r))
                (patch_rows mid (clock w)
                   (fun r => set_attempts (attempts r + 1) r)
                   (birthday_messages w))) w))).
Proof.
  intros Hq. unfold markAsFailed, bind.
  rewrite repo_increment_attempts_quiet by exact Hq.
  rewrite repo_update_quiet by still_quiet.
  reflexivity.
Qed.

Lemma markAsFailed_row (w : World) (mid error : string) (r : BirthdayMessage) :
  others w = [] ->
  List.find (has_id mid) (birthday_messages w) = Some r ->
  List.find (has_id mid) (birthday_messages (after (markAsFailed mid error w)))
  = Some (mkBirthdayMessage (msgId r) (userId r) (year r) FAILED (messageType r)
            (scheduledFor r) (sentAt r) (attempts r + 1) (Some error)
            (createdAt r) (clock w)).
Proof.
  intros Hq Hr. rewrite markAsFailed_quiet by exact Hq. cbn.
  rewrite !find_patch_rows by reflexivity. rewrite Hr. reflexivity.
Qed.

Lemma markAsFailed_row_missing (w : World) (mid error : string) :
  others w = [] ->
  List.find (has_id mid) (birthday_messages w) = None ->
  List.find (has_id mid) (birthday_messages (after (markAsFailed mid error w))) = None.
Proof.
  intros Hq Hr. rewrite markAsFailed_quiet by exact Hq. cbn.
  rewrite !find_patch_rows by reflexivity. rewrite Hr. reflexivity.
Qed.

(* ===================================================================== *)
(** ** C6: markAsFailed *)
(* ===================================================================== *)

(** C6, as the code has it. For every message identifier and error text:
    when nobody else writes in between, [markAsFailed] leaves the record
    with status [failed], the given error text, and an attempt count one
    higher than before, every other column but [updatedAt] being kept. It
    does so with two separate statements, the increment first and the
    status write second; they are not one indivisible update. *)
Theorem markAsFailed_increments_then_fails
    (w : World) (mid error : string) (r : BirthdayMessage) :
  others w = [] ->
  List.find (has_id mid) (birthday_messages w) = Some r ->
  let w' := after (markAsFailed mid error w) in
  outcome (markAsFailed mid error w) = Ok tt
  /\ (exists r',
        List.find (has_id mid) (birthday_messages w') = Some r'
        /\ status r' = FAILED
        /\ lastError r' = Some error
        /\ attempts r' = attempts r + 1
        /\ msgId r' = msgId r /\ userId r' = userId r /\ year r' = year r
        /\ scheduledFor r' = scheduledFor r /\ sentAt r' = sentAt r)
  /\ trace w' = DbUpdateStatus mid FAILED :: DbIncrementAttempts mid :: trace w.
Proof.
  intros Hq Hr w'. split; [|split].
  - rewrite markAsFailed_quiet by exact Hq. reflexivity.
  - eexists. split.
    + subst w'. apply markAsFailed_row; eassumption.
    + cbn. repeat split; reflexivity.
  - subst w'. rewrite markAsFailed_quiet by exact Hq. reflexivity.
Qed.

Lemma markAsFailed_increments_then_fails_witness :
  others queuedWorld = []
  /\ List.find (has_id "m1") (birthday_messages queuedWorld) = Some queuedRow
  /\ trace (after (markAsFailed "m1" "boom" queuedWorld))
     = DbUpdateStatus "m1" FAILED :: DbIncrementAttempts "m1" :: trace queuedWorld.
Proof.
  split; [reflexivity | split; [reflexivity |]].
  apply (markAsFailed_increments_then_fails queuedWorld "m1" "boom" queuedRow);
    reflexivity.
Defined.

(** C6 as stated fails: with a reader of another instance placed between
    the two statements of [markAsFailed], the reader sees the record with
    the attempt count already incremented and the status and the error
    text still the old ones. *)
Lemma markAsFailed_half_applied_is_observable :
  let w := set_others [Idle; OtherRead "m1"] queuedWorld in
  let seen := set_updatedAt 1735671600250 (set_attempts 1 queuedRow) in
  List.find (has_id "m1") (birthday_messages w) = Some queuedRow
  /\ In (Observed "m1" (Some seen)) (trace (after (markAsFailed "m1" "boom" w)))
  /\ ~ written_together queuedRow "boom" seen.
Proof.
  cbn zeta. split; [reflexivity | split].
  - vm_compute. right. left. reflexivity.
  - unfold written_together. cbn. intros [[H _] | [_ [H _]]]; discriminate H.
Qed.

(* ===================================================================== *)
(** ** C4: createBirthdayMessage *)
(* ===================================================================== *)

Lemma find_none_existsb {A : Type} (p : A -> bool) (l : list A) :
  List.find p l = None -> existsb p l = false.
Proof.
  induction l as [|x rest IH]; [reflexivity|].
  cbn. destruct (p x); [discriminate | exact IH].
Qed.

Lemma same_user_year_eq (uid : string) (y : Z) (r : BirthdayMessage) :
  same_user_year uid y r = true -> userId r = uid /\ year r = y.
Proof.
  unfold same_user_year. intros H.
  apply andb_true_iff in H. destruct H as [Hu Hy].
  apply String.eqb_eq in Hu. apply Z.eqb_eq in Hy. now split.
Qed.

Lemma createBirthdayMessage_fresh (w : World) (u : User) (scheduledFor_ : Z) :
  others w = [] ->
  List.find (same_user_year (usrId u) (getFullYear (serverUtcOffset w) scheduledFor_))
    (birthday_messages w) = None ->
  createBirthdayMessage u scheduledFor_ w
  = (Ok (Some (new_row w u scheduledFor_)),
     log_event (DbInsert (new_row w u scheduledFor_))
       (set_uuids (tl (uuids w))
          (set_messages (birthday_messages w ++ [new_row w u scheduledFor_])
             (log_event
                (DbFindByUserYear (usrId u) (getFullYear (serverUtcOffset w) scheduledFor_))
                w)))).
Proof.
  intros Hq Hnone. unfold createBirthdayMessage, bind, get_world, try_catch.
  rewrite repo_findOne_user_year_quiet by exact Hq. rewrite Hnone.
  unfold repo_save, bind. rewrite interleave_quiet by still_quiet.
  cbn. unfold violates_unique. rewrite (find_none_existsb _ _ Hnone).
  reflexivity.
Qed.

(** C4. For every user and scheduled-for instant, with [y] the year that
    [createBirthdayMessage] derives from the instant:
    - when no record for (user, y) exists and nobody interferes, a new
      record with status [pending] is inserted and returned;
    - when such a record exists, the call returns null and creates
      nothing;
    - when the pre-check passes but another instance inserts a record for
      (user, y) before the insert of this one, the database reports the
      uniqueness violation 23505 and the call returns null, raises
      nothing and creates nothing. *)
Theorem createBirthdayMessage_create_if_absent
    (w : World) (u : User) (scheduledFor_ : Z) :
  let y := getFullYear (serverUtcOffset w) scheduledFor_ in
  let res := createBirthdayMessage u scheduledFor_ w in
  (others w = [] ->
   List.find (same_user_year (usrId u) y) (birthday_messages w) = None ->
   exists saved,
     outcome res = Ok (Some saved)
     /\ status saved = PENDING /\ userId saved = usrId u /\ year saved = y
     /\ scheduledFor saved = scheduledFor_ /\ attempts saved = 0
     /\ sentAt saved = None /\ lastError saved = None
     /\ birthday_messages (after res) = birthday_messages w ++ [saved])
  /\
  (others w = [] ->
   forall existing,
     List.find (same_user_year (usrId u) y) (birthday_messages w) = Some existing ->
     outcome res = Ok None
     /\ birthday_messages (after res) = birthday_messages w)
  /\
  (forall rival rest,
     others w = Idle :: OtherInsert rival :: rest ->
     List.find (same_user_year (usrId u) y) (birthday_messages w) = None ->
     same_user_year (usrId u) y rival = true ->
     outcome res = Ok None
     /\ birthday_messages (after res) = birthday_messages w ++ [rival]
     /\ In (DbInsertRejected (usrId u) y) (trace (after res))).
Proof.
  intros y res. subst res y. split; [|split].
  - intros Hq Hnone. rewrite createBirthdayMessage_fresh by assumption.
    eexists. cbn. repeat split; reflexivity.
  - intros Hq existing Hsome.
    unfold createBirthdayMessage, bind, get_world, try_catch.
    rewrite repo_findOne_user_year_quiet by exact Hq. rewrite Hsome.
    cbn. split; reflexivity.
  - intros rival rest Hothers Hnone Hrival.
    destruct (same_user_year_eq _ _ _ Hrival) as [Hu Hy].
    unfold createBirthdayMessage, bind, get_world, try_catch.
    unfold repo_findOne_user_year, repo_save, bind, interleave.
    rewrite Hothers. cbn. rewrite Hnone. cbn.
    unfold violates_unique. rewrite Hu, Hy.
    rewrite (find_none_existsb _ _ Hnone). cbn.
    rewrite existsb_app. cbn. rewrite Hrival, orb_true_r. cbn.
    repeat split. left. reflexivity.
Qed.

Lemma createBirthdayMessage_create_if_absent_witness :
  (exists saved,
     outcome (createBirthdayMessage alice 1735671600000 newYearWorld) = Ok (Some saved)
     /\ status saved = PENDING)
  /\ outcome (createBirthdayMessage alice 1735671600000 queuedWorld) = Ok None
  /\ outcome (createBirthdayMessage alice 1735671600000
                (set_others [Idle; OtherInsert queuedRow] newYearWorld)) = Ok None.
Proof.
  split; [|split].
  - destruct (createBirthdayMessage_create_if_absent newYearWorld alice 1735671600000)
      as [Hnew _].
    destruct (Hnew eq_refl eq_refl) as [saved [Hout [Hst _]]].
    exists saved. split; assumption.
  - destruct (createBirthdayMessage_create_if_absent queuedWorld alice 1735671600000)
      as [_ [Hdup _]].
    exact (proj1 (Hdup eq_refl queuedRow eq_refl)).
  - destruct (createBirthdayMessage_create_if_absent
                (set_others [Idle; OtherInsert queuedRow] newYearWorld)
                alice 1735671600000) as [_ [_ Hrace]].
    exact (proj1 (Hrace queuedRow [] eq_refl eq_refl eq_refl)).
Defined.

(* ===================================================================== *)
(** ** C5: the year and the instant of the record a scan creates *)
(* ===================================================================== *)

(** The setters [hour(9).minute(0).second(0)] keep the local day and the
    milliseconds of the moment. *)
Lemma nine_wall (local off : Z) :
  wall (moment_second 0 (moment_minute 0 (moment_hour 9 (mkMoment local off))))
  = (local / MS_PER_DAY) * MS_PER_DAY + 9 * 3600000 + local mod 1000.
Proof.
  unfold moment_second, moment_minute, moment_hour, MS_PER_DAY.
  cbn [wall utcOffset]. Z.div_mod_to_equations. lia.
Qed.

Lemma nineLocal_eq (timezone_ : string) (w : World) :
  nineLocal timezone_ w
  = localNineSharp timezone_ w + localNow timezone_ w mod 1000.
Proof.
  unfold nineLocal, toDate, moment_tz, localNineSharp, localNow, zoneOffset.
  set (off := default 0 (tzdata w !! timezone_)).
  change (utcOffset (moment_second 0 (moment_minute 0 (moment_hour 9
            (mkMoment (clock w + off * 60000) off))))) with off.
  rewrite nine_wall. lia.
Qed.

Lemma nineLocal_same_local_year (timezone_ : string) (w : World) :
  getFullYear (zoneOffset timezone_ w) (nineLocal timezone_ w) = localYear timezone_ w.
Proof.
  rewrite nineLocal_eq. unfold localYear, getFullYear, localNineSharp, localNow.
  set (off := zoneOffset timezone_ w). f_equal.
  unfold MS_PER_DAY. Z.div_mod_to_equations. lia.
Qed.




(* ===================================================================== *)
(** ** C10: the per-recipient lock of the scanner *)
(* ===================================================================== *)

Create HintDb locks.

Lemma keeps_locks_ret {A : Type} (a : A) : keeps_locks (ret a).
Proof. intros w. split; reflexivity. Qed.

Lemma keeps_locks_throw {A : Type} (e : Error) : keeps_locks (@throw A e).
Proof. intros w. split; reflexivity. Qed.

Lemma keeps_locks_get_world : keeps_locks get_world.
Proof. intros w. split; reflexivity. Qed.

Lemma keeps_locks_bind {A B : Type} (m : M A) (k : A -> M B) :
  keeps_locks m -> (forall a, keeps_locks (k a)) -> keeps_locks (bind m k).
Proof.
  intros Hm Hk w. unfold bind, after. specialize (Hm w). unfold after in Hm.
  destruct (m w) as [[a|e] w']; cbn in *.
  - destruct Hm as [Hr0 Hc0]. destruct (Hk a w') as [Hr Hc].
    unfold after in *. split; congruence.
  - exact Hm.
Qed.

Lemma keeps_locks_try_catch {A : Type} (body : M A) (handler : Error -> M A) :
  keeps_locks body -> (forall e, keeps_locks (handler e)) ->
  keeps_locks (try_catch body handler).
Proof.
  intros Hb Hh w. unfold try_catch, after. specialize (Hb w). unfold after in Hb.
  destruct (body w) as [[a|e] w']; cbn in *.
  - exact Hb.
  - destruct Hb as [Hr0 Hc0]. destruct (Hh e w') as [Hr Hc].
    unfold after in *. split; congruence.
Qed.

Lemma keeps_locks_try_finally {A : Type} (body : M A) (fin : M unit) :
  keeps_locks body -> keeps_locks fin -> keeps_locks (try_finally body fin).
Proof.
  intros Hb Hf w. unfold try_finally, after. specialize (Hb w). unfold after in Hb.
  destruct (body w) as [r w']. cbn in Hb.
  specialize (Hf w'). unfold after in Hf.
  destruct (fin w') as [[[]|e] w'']; cbn in *; split; destruct Hb, Hf; congruence.
Qed.

Lemma keeps_locks_interleave : keeps_locks interleave.
Proof.
  intros w. unfold interleave, after.
  destruct (others w) as [|[|m|mid] rest]; cbn; try (split; reflexivity).
  match goal with
  | |- context [if ?b then _ else _] => destruct b
  end; split; reflexivity.
Qed.

Lemma keeps_locks_modify (f : World -> World) :
  (forall w, redis (f w) = redis w /\ clock (f w) = clock w) ->
  keeps_locks (modify f).
Proof. intros Hf w. exact (Hf w). Qed.

#[local] Hint Resolve keeps_locks_ret keeps_locks_throw keeps_locks_get_world
  keeps_locks_bind keeps_locks_try_catch keeps_locks_try_finally
  keeps_locks_interleave keeps_locks_modify : locks.

Lemma keeps_locks_repo_findOne_user_year (uid : string) (y : Z) :
  keeps_locks (repo_findOne_user_year uid y).
Proof.
  unfold repo_findOne_user_year. apply keeps_locks_bind; [auto with locks|].
  intros _ w. split; reflexivity.
Qed.

Lemma keeps_locks_repo_save (d : Draft) : keeps_locks (repo_save d).
Proof.
  unfold repo_save. apply keeps_locks_bind; [auto with locks|].
  intros _ w. unfold after.
  destruct (violates_unique (draftUserId d) (draftYear d) (birthday_messages w));
    split; reflexivity.
Qed.

Lemma keeps_locks_repo_update (mid : string) (st : MessageStatus)
    (patch : BirthdayMessage -> BirthdayMessage) :
  keeps_locks (repo_update mid st patch).
Proof.
  unfold repo_update. apply keeps_locks_bind; [auto with locks|].
  intros _. apply keeps_locks_modify. intros w. split; reflexivity.
Qed.

Lemma keeps_locks_publish (payload : BirthdayMessagePayload) :
  keeps_locks (publishBirthdayMessage payload).
Proof.
  unfold publishBirthdayMessage. apply keeps_locks_bind; [auto with locks|].
  intros w0. destruct (negb (producerChannel w0)); [auto with locks|].
  apply keeps_locks_modify. intros w. split; reflexivity.
Qed.

#[local] Hint Resolve keeps_locks_repo_findOne_user_year keeps_locks_repo_save
  keeps_locks_repo_update keeps_locks_publish : locks.

Lemma keeps_locks_createBirthdayMessage (u : User) (scheduledFor_ : Z) :
  keeps_locks (createBirthdayMessage u scheduledFor_).
Proof.
  unfold createBirthdayMessage.
  apply keeps_locks_bind; [auto with locks|]. intros w0.
  apply keeps_locks_try_catch.
  - apply keeps_locks_bind; [auto with locks|].
    intros [existing|]; auto with locks.
  - intros e. destruct (is_code _ e); auto with locks.
Qed.

Lemma keeps_locks_markAsQueued (mid : string) : keeps_locks (markAsQueued mid).
Proof. unfold markAsQueued. auto with locks. Qed.

#[local] Hint Resolve keeps_locks_createBirthdayMessage keeps_locks_markAsQueued : locks.

Lemma elapse_redis_clock (ms : Z) (w : World) :
  redis (elapse ms w) = redis w /\ clock (elapse ms w) = clock w + ms.
Proof.
  unfold elapse.
  set (due := List.filter _ (timers w)).
  set (start := set_timers _ _).
  assert (Hstart : redis start = redis w /\ clock start = clock w + ms)
    by (split; reflexivity).
  clearbody start. revert start Hstart.
  induction due as [|t rest IH]; intros start Hstart; [exact Hstart|].
  cbn [fold_left]. apply IH. exact Hstart.
Qed.

(** C10. On every path of [createAndQueueBirthdayMessage] that acquires
    the per-recipient-per-year lock (record created, duplicate detected,
    or an error thrown), the lock is still in Redis when the call ends,
    with the expiry it was given at entry, 300 s later; as time passes it
    stays held exactly until those 300 s are over; and a rescan of the
    same recipient that finds it held returns at the lock step, leaving
    the whole world, the trace of ledger and queue calls included, as it
    was. *)
Theorem userLock_kept_until_ttl_expires
    (w : World) (u : User) (timezone_ : string) :
  let key := "lock:" +:+ userLockKey u w in
  let w1 := after (createAndQueueBirthdayMessage u timezone_ w) in
  redis_exists key w = false ->
  redis w1 !! key = Some (clock w + 300000)
  /\ (forall d, 0 <= d -> (redis_exists key (elapse d w1) = true <-> d < 300000))
  /\ (forall d tz2, 0 <= d < 300000 ->
        userLockKey u (elapse d w1) = userLockKey u w ->
        createAndQueueBirthdayMessage u tz2 (elapse d w1) = (Ok tt, elapse d w1))
  /\ (forall w2 tz2,
        redis_exists ("lock:" +:+ userLockKey u w2) w2 = true ->
        createAndQueueBirthdayMessage u tz2 w2 = (Ok tt, w2)).
Proof.
  intros key w1 Hfree.
  assert (Hrescan : forall w2 tz2,
             redis_exists ("lock:" +:+ userLockKey u w2) w2 = true ->
             createAndQueueBirthdayMessage u tz2 w2 = (Ok tt, w2)).
  { intros w2 tz2 Hheld. unfold createAndQueueBirthdayMessage.
    rewrite bind_get_world.
    rewrite (bind_ok _ _ _ _ _ (acquireLock_held _ 300 w2 Hheld)). reflexivity. }
  assert (Hkept : redis w1 !! key = Some (clock w + 300000) /\ clock w1 = clock w).
  { subst w1. unfold createAndQueueBirthdayMessage.
    rewrite bind_get_world.
    rewrite (bind_ok _ _ _ _ _ (acquireLock_free _ 300 w Hfree)). cbn [negb].
    match goal with
    | |- context [try_finally ?body ?fin ?w0] =>
        assert (Hb : keeps_locks (try_finally body fin))
          by (apply keeps_locks_try_finally;
              [ apply keeps_locks_bind; [auto with locks|]; intros w';
                apply keeps_locks_bind; [auto with locks|];
                intros [m|]; auto with locks
              | auto with locks ]);
        destruct (Hb w0) as [Hr Hc]
    end.
    rewrite Hr, Hc. cbn. split; [|reflexivity].
    fold key. rewrite lookup_insert_eq. f_equal; lia. }
  destruct Hkept as [Hlook Hclock].
  assert (Hlive : forall d, 0 <= d ->
             (redis_exists key (elapse d w1) = true <-> d < 300000)).
  { intros d Hd. unfold redis_exists.
    destruct (elapse_redis_clock d w1) as [Hr Hc].
    rewrite Hr, Hc, Hlook, Hclock. rewrite Z.ltb_lt. lia. }
  split; [exact Hlook | split; [exact Hlive | split; [|exact Hrescan]]].
  intros d tz2 Hd Hsame. apply Hrescan. rewrite Hsame. fold key.
  apply Hlive; lia.
Qed.

Lemma userLock_kept_until_ttl_expires_witness :
  redis_exists ("lock:" +:+ userLockKey alice newYearWorld) newYearWorld = false
  /\ redis (after (createAndQueueBirthdayMessage alice "Pacific/Kiritimati" newYearWorld))
       !! ("lock:" +:+ userLockKey alice newYearWorld)
     = Some (clock newYearWorld + 300000).
Proof.
  split; [reflexivity|].
  exact (proj1 (userLock_kept_until_ttl_expires newYearWorld alice
                  "Pacific/Kiritimati" eq_refl)).
Defined.

(** The three ways through the body, on Alice at 09:00 in her zone: the
    record is created and queued; a record of the year exists already;
    the publish throws. The lock is held afterwards in all three. *)
Example userLock_kept_on_each_path :
  let key := ("lock:" +:+ userLockKey alice newYearWorld)%string in
  let created := createAndQueueBirthdayMessage alice "Pacific/Kiritimati" newYearWorld in
  let duplicate := createAndQueueBirthdayMessage alice "Pacific/Kiritimati" queuedWorld in
  let thrown := createAndQueueBirthdayMessage alice "Pacific/Kiritimati" disconnectedWorld in
  (outcome created = Ok tt
   /\ length (birthday_messages (after created)) = 1%nat
   /\ redis_exists key (after created) = true)
  /\ (outcome duplicate = Ok tt
      /\ birthday_messages (after duplicate) = birthday_messages queuedWorld
      /\ redis_exists key (after duplicate) = true)
  /\ (outcome thrown = Throw (newError "RabbitMQ channel not initialized")
      /\ redis_exists key (after thrown) = true).
Proof. cbn zeta. repeat split; vm_compute; reflexivity. Qed.

(* ===================================================================== *)
(** ** The dispatch worker, statement by statement *)
(* ===================================================================== *)

Lemma processMessage_locked (w : World) (payload : BirthdayMessagePayload) :
  redis_exists (processLockKey payload) w = true ->
  processMessage payload w
  = (Throw (newError "Could not acquire processing lock"), w).
Proof.
  intros Hheld. unfold processMessage.
  rewrite (bind_ok _ _ _ _ _ (acquireLock_held _ 120 w Hheld)). reflexivity.
Qed.

Lemma processMessage_missing (w : World) (payload : BirthdayMessagePayload) :
  others w = [] ->
  redis_exists (processLockKey payload) w = false ->
  List.find (has_id (messageId payload)) (birthday_messages w) = None ->
  processMessage payload w = (Ok tt, unlock payload (read_under_lock payload w)).
Proof.
  intros Hq Hfree Hnone. unfold processMessage.
  rewrite (bind_ok _ _ _ _ _ (acquireLock_free _ 120 w Hfree)). cbn [negb].
  unfold try_finally, findById.
  erewrite bind_ok by (apply repo_findOne_id_quiet; still_quiet).
  cbn [birthday_messages set_redis]. rewrite Hnone. reflexivity.
Qed.

Lemma processMessage_already_sent (w : World) (payload : BirthdayMessagePayload)
    (r : BirthdayMessage) :
  others w = [] ->
  redis_exists (processLockKey payload) w = false ->
  List.find (has_id (messageId payload)) (birthday_messages w) = Some r ->
  status r = SENT ->
  processMessage payload w = (Ok tt, unlock payload (read_under_lock payload w)).
Proof.
  intros Hq Hfree Hsome Hsent. unfold processMessage.
  rewrite (bind_ok _ _ _ _ _ (acquireLock_free _ 120 w Hfree)). cbn [negb].
  unfold try_finally, findById.
  erewrite bind_ok by (apply repo_findOne_id_quiet; still_quiet).
  cbn [birthday_messages set_redis]. rewrite Hsome.
  cbn [option_map join_user row]. rewrite Hsent. reflexivity.
Qed.

Lemma processMessage_send_ok (w : World) (payload : BirthdayMessagePayload)
    (r : BirthdayMessage) :
  others w = [] ->
  redis_exists (processLockKey payload) w = false ->
  List.find (has_id (messageId payload)) (birthday_messages w) = Some r ->
  status r <> SENT ->
  notifier_ok w = true ->
  processMessage payload w
  = (Ok tt,
     unlock payload
       (log_event (DbUpdateStatus (messageId payload) SENT)
          (set_messages
             (patch_rows (messageId payload) (clock w)
                (fun r => set_status SENT (set_sentAt (Some (clock w)) r))
                (birthday_messages w))
             (posted payload (read_under_lock payload w))))).
Proof.
  intros Hq Hfree Hsome Hnot Hok. unfold processMessage.
  rewrite (bind_ok _ _ _ _ _ (acquireLock_free _ 120 w Hfree)). cbn [negb].
  unfold try_finally, findById.
  erewrite bind_ok by (apply repo_findOne_id_quiet; still_quiet).
  cbn [birthday_messages set_redis]. rewrite Hsome.
  cbn [option_map join_user row].
  unfold posted, read_under_lock, unlock, processLockKey.
  destruct (status r) eqn:Hst; try congruence; cbn [MessageStatus_eqb];
    unfold bind at 1, sendBirthdayEmail; unfold notifier_ok in Hok;
    cbn [emailApi log_event set_redis set_emailApi];
    destruct (emailApi w) as [|[e|] rest] eqn:Hapi; try discriminate Hok;
    unfold markAsSent; rewrite bind_get_world;
    rewrite repo_update_quiet by still_quiet; reflexivity.
Qed.

Lemma processMessage_send_fails (w : World) (payload : BirthdayMessagePayload)
    (r : BirthdayMessage) (e : Error) (rest : list (option Error)) :
  others w = [] ->
  redis_exists (processLockKey payload) w = false ->
  List.find (has_id (messageId payload)) (birthday_messages w) = Some r ->
  status r <> SENT ->
  emailApi w = Some e :: rest ->
  processMessage payload w
  = (Throw e, unlock payload (posted payload (read_under_lock payload w))).
Proof.
  intros Hq Hfree Hsome Hnot Hfail. unfold processMessage.
  rewrite (bind_ok _ _ _ _ _ (acquireLock_free _ 120 w Hfree)). cbn [negb].
  unfold try_finally, findById.
  erewrite bind_ok by (apply repo_findOne_id_quiet; still_quiet).
  cbn [birthday_messages set_redis]. rewrite Hsome.
  cbn [option_map join_user row].
  unfold posted, read_under_lock, unlock, processLockKey.
  destruct (status r) eqn:Hst; try congruence; cbn [MessageStatus_eqb];
    unfold bind at 1, sendBirthdayEmail;
    cbn [emailApi log_event set_redis set_emailApi]; rewrite Hfail; reflexivity.
Qed.

Lemma handleFailure_quiet (w : World) (msg payload : BirthdayMessagePayload)
    (error : Error) :
  others w = [] ->
  let w2 := after (markAsFailed (messageId payload) (message error)
                     (log_event (DbFindById (messageId payload)) w)) in
  handleFailure msg payload error w
  = (Ok tt,
     if MAX_RETRY_ATTEMPTS <=? attemptsRead payload w
     then set_dlq (birthdayDlq w2 ++ [msg]) (set_inFlight (settle msg (inFlight w2)) w2)
     else set_timers
            (timers w2 ++ [(clock w2 + default 0 (retryDelay (attemptsRead payload w)), msg)])
            w2).
Proof.
  intros Hq w2. unfold handleFailure, findById.
  erewrite bind_ok by (apply repo_findOne_id_quiet; exact Hq).
  assert (Ha : match option_map (join_user w)
                       (List.find (has_id (messageId payload)) (birthday_messages w)) with
               | Some m => attempts (row m)
               | None => 0
               end = attemptsRead payload w).
  { unfold attemptsRead. destruct (List.find _ _); reflexivity. }
  rewrite Ha. subst w2.
  destruct (MAX_RETRY_ATTEMPTS <=? attemptsRead payload w);
    unfold bind; rewrite markAsFailed_quiet by still_quiet; reflexivity.
Qed.

(* ===================================================================== *)
(** ** C2: the idempotency check of the worker *)
(* ===================================================================== *)

(** C2. For every queue entry that the worker processes holding the
    processing lock of its record: if no record with the entry's
    messageId exists, or the record is already [sent], [processMessage]
    returns normally, the only call made is the re-read of the record (no
    POST to the notifier, no write to the ledger), and the entry is
    acknowledged; otherwise the notifier is called right after the
    re-read and, when it answers 2xx, the record is marked [sent] with
    its sent-at instant and the entry is acknowledged. *)
Theorem worker_drops_or_dispatches (w : World) (payload : BirthdayMessagePayload) :
  others w = [] ->
  redis_exists (processLockKey payload) w = false ->
  let mid := messageId payload in
  let w' := after (onMessage payload w) in
  let dropped :=
    outcome (processMessage payload w) = Ok tt
    /\ birthday_messages w' = birthday_messages w
    /\ emailApi w' = emailApi w
    /\ trace w' = DbFindById mid :: trace w
    /\ acknowledged payload w w' in
  match List.find (has_id mid) (birthday_messages w) with
  | None => dropped
  | Some r =>
      if MessageStatus_eqb (status r) SENT then dropped
      else
        (exists later,
            trace w' = later ++ HttpPost (payloadEmail payload) (fullName payload)
                                  :: DbFindById mid :: trace w)
        /\ (notifier_ok w = true ->
            outcome (processMessage payload w) = Ok tt
            /\ List.find (has_id mid) (birthday_messages w')
               = Some (mkBirthdayMessage (msgId r) (userId r) (year r) SENT
                         (messageType r) (scheduledFor r) (Some (clock w))
                         (attempts r) (lastError r) (createdAt r) (clock w))
            /\ acknowledged payload w w')
  end.
Proof.
  intros Hq Hfree mid w' dropped.
  assert (Hdrop : processMessage payload w
                  = (Ok tt, unlock payload (read_under_lock payload w)) -> dropped).
  { intros Hp. subst dropped w'. unfold onMessage, try_catch, bind.
    rewrite Hp. cbn. repeat split; reflexivity. }
  destruct (List.find (has_id mid) (birthday_messages w)) as [r|] eqn:Hfind.
  - destruct (MessageStatus_eqb (status r) SENT) eqn:Hst.
    + apply Hdrop. apply processMessage_already_sent with (r := r); try assumption.
      destruct (status r); try discriminate Hst; reflexivity.
    + assert (Hnot : status r <> SENT) by (intros E; rewrite E in Hst; discriminate Hst).
      split.
      * subst w'. unfold onMessage, try_catch, bind.
        destruct (emailApi w) as [|[e|] rest] eqn:Hapi.
        -- rewrite (processMessage_send_ok w payload r) by
             (try assumption; unfold notifier_ok; now rewrite Hapi).
           cbn. eexists [_]. reflexivity.
        -- rewrite (processMessage_send_fails w payload r e rest) by assumption.
           rewrite handleFailure_quiet by still_quiet. cbv zeta.
           rewrite markAsFailed_quiet by still_quiet.
           destruct (MAX_RETRY_ATTEMPTS <=? _); cbn; eexists [_; _; _]; reflexivity.
        -- rewrite (processMessage_send_ok w payload r) by
             (try assumption; unfold notifier_ok; now rewrite Hapi).
           cbn. eexists [_]. reflexivity.
      * intros Hok. subst w'. unfold onMessage, try_catch, bind.
        rewrite (processMessage_send_ok w payload r) by assumption.
        cbn. split; [reflexivity | split].
        -- rewrite find_patch_rows by reflexivity. fold mid. rewrite Hfind. reflexivity.
        -- repeat split; reflexivity.
  - apply Hdrop. apply processMessage_missing; assumption.
Qed.

Lemma worker_drops_or_dispatches_witness :
  others queuedWorld = []
  /\ redis_exists (processLockKey entry1) queuedWorld = false
  /\ exists later,
       trace (after (onMessage entry1 queuedWorld))
       = later ++ [HttpPost "alice@example.com" "Alice Doe"; DbFindById "m1"].
Proof.
  split; [reflexivity | split; [reflexivity |]].
  exact (proj1 (worker_drops_or_dispatches queuedWorld entry1 eq_refl eq_refl)).
Defined.

(* ===================================================================== *)
(** ** C3: a delivery that does not get the processing lock *)
(* ===================================================================== *)




(* ===================================================================== *)
(** ** C7: the backoff schedule *)
(* ===================================================================== *)

Lemma retryDelay_clamps (a : Z) :
  Z.of_nat (length RETRY_DELAYS) <= a -> retryDelay a = Some 300000.
Proof.
  intros Ha. unfold retryDelay, js_index.
  assert (Hneg : (a <? 0) = false) by (apply Z.ltb_ge; cbn in Ha; lia).
  rewrite Hneg.
  assert (Hout : nth_error RETRY_DELAYS (Z.to_nat a) = None)
    by (apply nth_error_None; lia).
  rewrite Hout. reflexivity.
Qed.

Lemma retryDelay_in_schedule (a : Z) :
  0 <= a < MAX_RETRY_ATTEMPTS ->
  exists delay,
    nth_error RETRY_DELAYS (Z.to_nat a) = Some delay /\ retryDelay a = Some delay.
Proof.
  unfold MAX_RETRY_ATTEMPTS. intros Ha.
  assert (Hcases : a = 0 \/ a = 1 \/ a = 2 \/ a = 3 \/ a = 4) by lia.
  destruct Hcases as [-> | [-> | [-> | [-> | ->]]]]; eexists; split; reflexivity.
Qed.

(** C7. For every failed processing attempt whose attempt count, as
    [handleFailure] reads it, is below the ceiling: the entry is set to be
    redelivered after the delay found in the schedule
    [1 s, 5 s, 15 s, 60 s, 300 s] at the index given by that count (and is
    not dead-lettered); and an index past the end of the schedule gives
    the last value, 300 s. *)
Theorem retry_delay_follows_schedule
    (w : World) (msg payload : BirthdayMessagePayload) (error : Error) :
  others w = [] ->
  0 <= attemptsRead payload w < MAX_RETRY_ATTEMPTS ->
  let w' := after (handleFailure msg payload error w) in
  RETRY_DELAYS = [1000; 5000; 15000; 60000; 300000]
  /\ (exists delay,
        nth_error RETRY_DELAYS (Z.to_nat (attemptsRead payload w)) = Some delay
        /\ timers w' = timers w ++ [(clock w + delay, msg)]
        /\ birthdayDlq w' = birthdayDlq w)
  /\ (forall a, Z.of_nat (length RETRY_DELAYS) <= a -> retryDelay a = Some 300000).
Proof.
  intros Hq Ha w'. split; [reflexivity | split; [| exact retryDelay_clamps]].
  destruct (retryDelay_in_schedule _ Ha) as [delay [Hnth Hdelay]].
  exists delay. split; [exact Hnth|].
  subst w'. rewrite handleFailure_quiet by exact Hq. cbv zeta.
  assert (Hlt : (MAX_RETRY_ATTEMPTS <=? attemptsRead payload w) = false)
    by (apply Z.leb_gt; lia).
  rewrite Hlt, Hdelay. rewrite markAsFailed_quiet by still_quiet.
  split; reflexivity.
Qed.

Lemma retry_delay_follows_schedule_witness :
  others queuedWorld = []
  /\ 0 <= attemptsRead entry1 queuedWorld < MAX_RETRY_ATTEMPTS
  /\ exists delay,
       nth_error RETRY_DELAYS (Z.to_nat (attemptsRead entry1 queuedWorld)) = Some delay
       /\ timers (after (handleFailure entry1 entry1 http500 queuedWorld))
          = timers queuedWorld ++ [(clock queuedWorld + delay, entry1)]
       /\ birthdayDlq (after (handleFailure entry1 entry1 http500 queuedWorld))
          = birthdayDlq queuedWorld.
Proof.
  assert (Hrange : 0 <= attemptsRead entry1 queuedWorld < MAX_RETRY_ATTEMPTS)
    by (vm_compute; split; [discriminate | reflexivity]).
  split; [reflexivity | split; [exact Hrange |]].
  exact (proj1 (proj2 (retry_delay_follows_schedule queuedWorld entry1 entry1 http500
                         eq_refl Hrange))).
Defined.

(* ===================================================================== *)
(** ** C1: five consecutive failures *)
(* ===================================================================== *)


(* ===================================================================== *)
(** ** C9: the retry query *)
(* ===================================================================== *)

Lemma insert_by_updatedAt_perm (r : BirthdayMessage) (rows : list BirthdayMessage) :
  Permutation (insert_by_updatedAt r rows) (r :: rows).
Proof.
  induction rows as [|x rest IH]; cbn; [apply Permutation_refl|].
  destruct (updatedAt r <? updatedAt x); [apply Permutation_refl|].
  eapply Permutation_trans; [apply perm_skip, IH | apply perm_swap].
Qed.

Lemma order_by_updatedAt_perm (rows : list BirthdayMessage) :
  Permutation (order_by_updatedAt rows) rows.
Proof.
  induction rows as [|x rest IH]; cbn; [apply Permutation_refl|].
  eapply Permutation_trans; [apply insert_by_updatedAt_perm | apply perm_skip, IH].
Qed.

Lemma In_firstn {A : Type} (n : nat) (l : list A) (x : A) :
  In x (firstn n l) -> In x l.
Proof.
  revert l. induction n as [|n IH]; intros [|y rest]; cbn; try tauto.
  intros [H | H]; [left; exact H | right; apply IH; exact H].
Qed.

Lemma interleave_total (w : World) : exists w1, interleave w = (Ok tt, w1).
Proof. unfold interleave. destruct (others w); eexists; reflexivity. Qed.

(** What the query returns, in terms of the table it reads. *)
Lemma getFailedMessagesForRetry_result (maxAttempts : Z) (limit : nat) (w : World) :
  exists w1,
    interleave w = (Ok tt, w1)
    /\ getFailedMessagesForRetry maxAttempts limit w
       = (Ok (List.filter (fun m => attempts (row m) <? maxAttempts)
                (map (join_user w1)
                   (firstn limit
                      (order_by_updatedAt
                         (List.filter (fun r => MessageStatus_eqb (status r) FAILED)
                            (birthday_messages w1)))))),
          log_event (DbFindFailed limit) w1).
Proof.
  destruct (interleave_total w) as [w1 Hw1]. exists w1. split; [exact Hw1|].
  unfold getFailedMessagesForRetry, repo_find_failed, bind. rewrite Hw1. reflexivity.
Qed.

Lemma retry_query_sound (maxAttempts : Z) (limit : nat) (w : World) (batch : list Loaded) :
  outcome (getFailedMessagesForRetry maxAttempts limit w) = Ok batch ->
  Forall (fun m => status (row m) = FAILED /\ attempts (row m) < maxAttempts) batch
  /\ (length batch <= limit)%nat.
Proof.
  destruct (getFailedMessagesForRetry_result maxAttempts limit w) as [w1 [_ Hres]].
  rewrite Hres. cbn. intros Hb. injection Hb as <-. split.
  - apply List.Forall_forall. intros m Hm.
    apply filter_In in Hm. destruct Hm as [Hm Hlt].
    apply in_map_iff in Hm. destruct Hm as [r [<- Hr]].
    apply In_firstn in Hr.
    apply (Permutation_in _ (order_by_updatedAt_perm _)) in Hr.
    apply filter_In in Hr. destruct Hr as [_ Hst]. cbn.
    split; [destruct (status r); try discriminate Hst; reflexivity|].
    apply Z.ltb_lt. exact Hlt.
  - eapply Nat.le_trans; [apply filter_length_le|].
    rewrite length_map. apply firstn_le_length.
Qed.


(* ===================================================================== *)
(** ** C8: the retry loop of the reconciler *)
(* ===================================================================== *)

Lemma retryOne_ready (m : Loaded) (w : World) (c : Z) :
  ready c w ->
  exists w',
    retryOne m w = (Ok tt, w')
    /\ ready c w'
    /\ (exists added, trace w' = added ++ trace w)
    /\ (forall u, user m = Some u -> trace w' = retryCalls m u ++ trace w)
    /\ (forall mid,
          List.find (has_id mid) (birthday_messages w')
          = option_map (fun r => if processed mid [m] then requeuedAt c r else r)
              (List.find (has_id mid) (birthday_messages w))).
Proof.
  intros [Hq [Hch Hc]]. unfold retryOne, processed. cbn [existsb].
  destruct (user m) as [u|] eqn:Hu.
  - unfold try_catch, resetToPending, markAsQueued, publishBirthdayMessage.
    unfold bind at 1. rewrite repo_update_quiet by exact Hq.
    unfold bind at 1. rewrite bind_get_world.
    cbn [producerChannel log_event set_messages]. rewrite Hch. cbn [negb].
    unfold modify. rewrite repo_update_quiet by still_quiet.
    eexists. split; [reflexivity|]. split; [|split; [|split]].
    + repeat split; cbn; assumption.
    + exists (retryCalls m u). reflexivity.
    + intros u' Hu'. injection Hu' as <-. reflexivity.
    + intros mid. cbn [birthday_messages log_event set_messages set_queue clock].
      rewrite Hc, andb_true_r, orb_false_r.
      destruct (has_id mid (row m)) eqn:Hid; unfold has_id in Hid.
      * apply String.eqb_eq in Hid. subst mid.
        rewrite !find_patch_rows by reflexivity.
        destruct (List.find _ _); reflexivity.
      * apply String.eqb_neq in Hid.
        rewrite !find_patch_rows_other by (try reflexivity; exact Hid).
        destruct (List.find _ _); reflexivity.
  - exists w. split; [reflexivity|]. split; [repeat split; assumption|].
    split; [exists []; reflexivity|]. split; [intros u Hu'; discriminate Hu'|].
    intros mid. rewrite andb_false_r. cbn.
    destruct (List.find _ _); reflexivity.
Qed.

Lemma forEach_retryOne_ready (ms : list Loaded) :
  forall (w : World) (c : Z),
    ready c w ->
    exists w',
      forEach ms retryOne w = (Ok tt, w')
      /\ ready c w'
      /\ (exists added, trace w' = added ++ trace w)
      /\ (forall m u, In m ms -> user m = Some u ->
            exists later before, trace w' = later ++ retryCalls m u ++ before)
      /\ (forall mid,
            List.find (has_id mid) (birthday_messages w')
            = option_map (fun r => if processed mid ms then requeuedAt c r else r)
                (List.find (has_id mid) (birthday_messages w))).
Proof.
  induction ms as [|x rest IH]; intros w c Hready.
  - exists w. split; [reflexivity|]. split; [exact Hready|].
    split; [exists []; reflexivity|]. split; [intros m u []|].
    intros mid. cbn. destruct (List.find _ _); reflexivity.
  - destruct (retryOne_ready x w c Hready)
      as [w1 [Hrun1 [Hready1 [[added1 Hgrow1] [Hcalls1 Hrows1]]]]].
    destruct (IH w1 c Hready1)
      as [w' [Hrun [Hready' [[added Hgrow] [Hcalls Hrows]]]]].
    exists w'. split; [|split; [exact Hready'|split; [|split]]].
    + cbn [forEach]. rewrite (bind_ok _ _ _ _ _ Hrun1). exact Hrun.
    + exists (added ++ added1). rewrite Hgrow, Hgrow1. apply app_assoc.
    + intros m u [-> | Hin] Hu.
      * exists added, (trace w). rewrite Hgrow, (Hcalls1 u Hu). reflexivity.
      * exact (Hcalls m u Hin Hu).
    + intros mid. rewrite Hrows, Hrows1.
      unfold processed. cbn [existsb]. rewrite orb_false_r.
      destruct (List.find (has_id mid) (birthday_messages w)) as [r|]; [|reflexivity].
      cbn [option_map].
      destruct (has_id mid (row x) && _)%bool; destruct (existsb _ rest);
        reflexivity.
Qed.

Lemma processed_In (mid : string) (ms : list Loaded) (m : Loaded) (u : User) :
  In m ms -> user m = Some u -> msgId (row m) = mid -> processed mid ms = true.
Proof.
  intros Hin Hu Hid. unfold processed. apply existsb_exists.
  exists m. split; [exact Hin|]. rewrite Hu, andb_true_r.
  unfold has_id. apply String.eqb_eq. exact Hid.
Qed.

Lemma retryBatch_quiet (w : World) :
  others w = [] ->
  getFailedMessagesForRetry MAX_RETRY_ATTEMPTS 100 w
  = (Ok (retryBatch w), log_event (DbFindFailed 100) w).
Proof.
  intros Hq. unfold retryBatch.
  destruct (getFailedMessagesForRetry_result MAX_RETRY_ATTEMPTS 100 w) as [w1 [Hi Hres]].
  rewrite interleave_quiet in Hi by exact Hq. injection Hi as <-.
  rewrite Hres. reflexivity.
Qed.

(** C8, as the code has it. For every record that the retry query of the
    reconciler returns (so: failed, attempt count below the ceiling, and
    within the first 100 failed rows by [updatedAt]) and whose recipient
    resolves, when the producer has its channel and nobody else writes:
    one run of [retryFailedMessages] resets it to [pending], publishes
    its queue entry and marks it [queued], in that order, and the record
    ends [queued]; and [resetToPending] changes only the status (and the
    [updatedAt] stamp that every update refreshes): the attempt count,
    last error, scheduled-for and sent-at are the same after the reset,
    and after the whole run. *)
Theorem reconciler_requeues_returned_failed_record
    (w : World) (m : Loaded) (u : User) (r : BirthdayMessage) :
  others w = [] ->
  producerChannel w = true ->
  In m (retryBatch w) ->
  user m = Some u ->
  List.find (has_id (msgId (row m))) (birthday_messages w) = Some r ->
  let mid := msgId (row m) in
  let w' := after (retryFailedMessages w) in
  let wr := after (resetToPending mid w) in
  status (row m) = FAILED /\ attempts (row m) < MAX_RETRY_ATTEMPTS
  /\ outcome (retryFailedMessages w) = Ok tt
  /\ (exists later before, trace w' = later ++ retryCalls m u ++ before)
  /\ List.find (has_id mid) (birthday_messages w')
     = Some (mkBirthdayMessage (msgId r) (userId r) (year r) QUEUED (messageType r)
               (scheduledFor r) (sentAt r) (attempts r) (lastError r)
               (createdAt r) (clock w))
  /\ List.find (has_id mid) (birthday_messages wr)
     = Some (mkBirthdayMessage (msgId r) (userId r) (year r) PENDING (messageType r)
               (scheduledFor r) (sentAt r) (attempts r) (lastError r)
               (createdAt r) (clock w)).
Proof.
  intros Hq Hch Hin Hu Hr mid w' wr.
  assert (Hsound : status (row m) = FAILED /\ attempts (row m) < MAX_RETRY_ATTEMPTS).
  { pose proof (retry_query_sound MAX_RETRY_ATTEMPTS 100 w (retryBatch w)) as Hs.
    rewrite (retryBatch_quiet w Hq) in Hs. destruct (Hs eq_refl) as [Hall _].
    exact (proj1 (List.Forall_forall _ _) Hall m Hin). }
  assert (Hready : ready (clock w) (log_event (DbFindFailed 100) w))
    by (repeat split; cbn; assumption).
  destruct (forEach_retryOne_ready (retryBatch w) _ _ Hready)
    as [wf [Hrun [_ [_ [Hcalls Hrows]]]]].
  assert (Hpass : retryFailedMessages w = (Ok tt, wf)).
  { unfold retryFailedMessages. rewrite (bind_ok _ _ _ _ _ (retryBatch_quiet w Hq)).
    destruct (retryBatch w) as [|m0 rest] eqn:Hbatch; [destruct Hin | exact Hrun]. }
  destruct Hsound as [Hst Hatt].
  split; [exact Hst | split; [exact Hatt | split; [|split; [|split]]]].
  - now rewrite Hpass.
  - subst w'. rewrite Hpass. exact (Hcalls m u Hin Hu).
  - subst w'. rewrite Hpass. cbn [after snd]. rewrite Hrows.
    rewrite (processed_In mid _ m u Hin Hu eq_refl).
    cbn [birthday_messages log_event]. fold mid in Hr. rewrite Hr. reflexivity.
  - subst wr. unfold resetToPending. rewrite repo_update_quiet by exact Hq.
    cbn. rewrite find_patch_rows by reflexivity. fold mid in Hr. rewrite Hr. reflexivity.
Qed.

Lemma reconciler_requeues_returned_failed_record_witness :
  let r := failedRow "m1" "u1" 2024 2 1000 in
  let m := join_user retryWorld r in
  In m (retryBatch retryWorld)
  /\ user m = Some alice
  /\ List.find (has_id "m1") (birthday_messages (after (retryFailedMessages retryWorld)))
     = Some (mkBirthdayMessage "m1" "u1" 2024 QUEUED BIRTHDAY 1000 None 2
               (Some (message http500)) 900 (clock retryWorld)).
Proof.
  cbn zeta.
  assert (Hin : In (join_user retryWorld (failedRow "m1" "u1" 2024 2 1000))
                  (retryBatch retryWorld)) by (left; reflexivity).
  split; [exact Hin | split; [reflexivity |]].
  exact (proj1 (proj2 (proj2 (proj2 (proj2
           (reconciler_requeues_returned_failed_record retryWorld
              (join_user retryWorld (failedRow "m1" "u1" 2024 2 1000)) alice
              (failedRow "m1" "u1" 2024 2 1000)
              eq_refl eq_refl Hin eq_refl eq_refl)))))).
Defined.

(** C8 as stated fails, twice over. With a hundred older failed records
    that have exhausted their attempts, Alice's record (failed, two
    attempts, recipient known) is not among the first 100 failed rows,
    and a run of the reconciler leaves it failed. And when the producer
    has no channel, the run resets the record to [pending], the publish
    throws, and the record stays [pending] instead of [queued]. *)
Lemma reconciler_can_leave_failed_record_unqueued :
  let r := failedRow "m1" "u1" 2024 2 1000 in
  (In r (birthday_messages crowdedWorld)
   /\ retryable MAX_RETRY_ATTEMPTS r = true
   /\ user (join_user crowdedWorld r) = Some alice
   /\ producerChannel crowdedWorld = true
   /\ outcome (retryFailedMessages crowdedWorld) = Ok tt
   /\ List.find (has_id "m1") (birthday_messages (after (retryFailedMessages crowdedWorld)))
      = Some r)
  /\
  (List.find (has_id "m1") (birthday_messages offlineWorld) = Some r
   /\ user (join_user offlineWorld r) = Some alice
   /\ outcome (retryFailedMessages offlineWorld) = Ok tt
   /\ List.find (has_id "m1") (birthday_messages (after (retryFailedMessages offlineWorld)))
      = Some (set_updatedAt (clock offlineWorld) (set_status PENDING r))).
Proof.
  cbn zeta. split.
  - split; [apply in_or_app; right; left; reflexivity|].
    repeat split; vm_compute; reflexivity.
  - repeat split; vm_compute; reflexivity.
Qed.

(* ===================================================================== *)
(** ** Further properties: LockService *)
(* ===================================================================== *)

Lemma lock_key_inj (k1 k2 : string) :
  "lock:" +:+ k1 = "lock:" +:+ k2 -> k1 = k2.
Proof. cbn. intros H. injection H as H. exact H. Qed.

(** X1. A lock that is granted excludes every other [acquireLock] on its
    key for exactly its TTL (a positive number of seconds, as Redis
    requires): while fewer than [ttl] seconds have passed a second
    acquire answers false and changes nothing, and from then on the key
    has expired by itself and the acquire is granted again. *)
Theorem lock_granted_excludes_for_ttl
    (w : World) (key : string) (ttl ttl2 d : Z) :
  0 < ttl -> 0 < ttl2 ->
  redis_exists ("lock:" +:+ key) w = false ->
  0 <= d ->
  let w1 := after (acquireLock key ttl w) in
  outcome (acquireLock key ttl w) = Ok true
  /\ (d < ttl * 1000 ->
      acquireLock key ttl2 (elapse d w1) = (Ok false, elapse d w1)
      /\ isLocked key (elapse d w1) = (Ok true, elapse d w1))
  /\ (ttl * 1000 <= d ->
      outcome (acquireLock key ttl2 (elapse d w1)) = Ok true
      /\ isLocked key (elapse d w1) = (Ok false, elapse d w1)).
Proof.
  intros _ _ Hfree Hd w1. subst w1. rewrite (acquireLock_free key ttl w Hfree).
  cbn [outcome after fst snd].
  set (w1 := set_redis _ w).
  assert (Hex : redis_exists ("lock:" +:+ key) (elapse d w1)
                = (clock w + d <? clock w + ttl * 1000)).
  { unfold redis_exists. destruct (elapse_redis_clock d w1) as [Hr Hc].
    rewrite Hr, Hc. subst w1. cbn [redis clock set_redis].
    rewrite lookup_insert_eq. reflexivity. }
  split; [reflexivity | split].
  - intros Hlt.
    assert (Hheld : redis_exists ("lock:" +:+ key) (elapse d w1) = true)
      by (rewrite Hex; apply Z.ltb_lt; lia).
    split; [apply acquireLock_held; exact Hheld|].
    unfold isLocked. now rewrite Hheld.
  - intros Hge.
    assert (Hgone : redis_exists ("lock:" +:+ key) (elapse d w1) = false)
      by (rewrite Hex; apply Z.ltb_ge; lia).
    split; [rewrite (acquireLock_free _ _ _ Hgone); reflexivity|].
    unfold isLocked. now rewrite Hgone.
Qed.

Lemma lock_granted_excludes_for_ttl_witness :
  redis_exists ("lock:" +:+ "recovery-job-lock") newYearWorld = false
  /\ outcome (acquireLock "recovery-job-lock" 240 newYearWorld) = Ok true.
Proof.
  split; [reflexivity|].
  assert (Hd : 0 <= 1000) by lia.
  assert (Httl : 0 < 240) by lia.
  exact (proj1 (lock_granted_excludes_for_ttl newYearWorld "recovery-job-lock"
                  240 240 1000 Httl Httl eq_refl Hd)).
Defined.

(** X2. Locks are kept per key, and [releaseLock] asks for no owner: it
    frees the key whoever holds it, so that the next acquire is granted;
    and neither acquiring nor releasing a key changes whether any other
    key is held. *)
Theorem locks_are_per_key (w : World) (key other : string) (ttl : Z) :
  0 < ttl ->
  other <> key ->
  redis_exists ("lock:" +:+ key) (after (releaseLock key w)) = false
  /\ outcome (acquireLock key ttl (after (releaseLock key w))) = Ok true
  /\ redis_exists ("lock:" +:+ other) (after (releaseLock key w))
     = redis_exists ("lock:" +:+ other) w
  /\ redis_exists ("lock:" +:+ other) (after (acquireLock key ttl w))
     = redis_exists ("lock:" +:+ other) w.
Proof.
  intros _ Hne.
  assert (Hkeys : "lock:" +:+ key <> "lock:" +:+ other)
    by (intros E; apply Hne; symmetry; exact (lock_key_inj _ _ E)).
  assert (Hfree : redis_exists ("lock:" +:+ key) (after (releaseLock key w)) = false).
  { unfold redis_exists, releaseLock, modify, after. cbn.
    now rewrite lookup_delete_eq. }
  split; [exact Hfree | split; [|split]].
  - rewrite (acquireLock_free _ _ _ Hfree). reflexivity.
  - unfold redis_exists, releaseLock, modify, after. cbn.
    now rewrite lookup_delete_ne by exact Hkeys.
  - unfold acquireLock, after.
    destruct (redis_exists ("lock:" +:+ key) w); [reflexivity|].
    unfold redis_exists. cbn. now rewrite lookup_insert_ne by exact Hkeys.
Qed.

Lemma locks_are_per_key_witness :
  redis_exists (processLockKey entry1) (after (releaseLock "process-m1" heldWorld)) = false
  /\ redis_exists (processLockKey entry1) heldWorld = true.
Proof.
  assert (Hne : "birthday-scheduler-lock"%string <> "process-m1"%string)
    by discriminate.
  assert (Httl : 0 < 120) by lia.
  split; [|reflexivity].
  exact (proj1 (locks_are_per_key heldWorld "process-m1" "birthday-scheduler-lock"
                  120 Httl Hne)).
Defined.

(* ===================================================================== *)
(** ** Further properties: who releases which lock *)
(* ===================================================================== *)

Lemma keeps_locks_forEach {A : Type} (xs : list A) (body : A -> M unit) :
  (forall x, keeps_locks (body x)) -> keeps_locks (forEach xs body).
Proof.
  intros Hbody. induction xs as [|x rest IH]; cbn [forEach]; auto with locks.
Qed.

Lemma keeps_locks_repo_findOne_id (mid : string) : keeps_locks (repo_findOne_id mid).
Proof.
  unfold repo_findOne_id. apply keeps_locks_bind; [auto with locks|].
  intros _ w. split; reflexivity.
Qed.

Lemma keeps_locks_repo_increment_attempts (mid : string) (n : Z) :
  keeps_locks (repo_increment_attempts mid n).
Proof.
  unfold repo_increment_attempts. apply keeps_locks_bind; [auto with locks|].
  intros _. apply keeps_locks_modify. intros w. split; reflexivity.
Qed.

Lemma keeps_locks_repo_find_failed (limit : nat) : keeps_locks (repo_find_failed limit).
Proof.
  unfold repo_find_failed. apply keeps_locks_bind; [auto with locks|].
  intros _ w. split; reflexivity.
Qed.

Lemma keeps_locks_repo_query_pending : keeps_locks repo_query_pending.
Proof.
  unfold repo_query_pending. apply keeps_locks_bind; [auto with locks|].
  intros _ w. split; reflexivity.
Qed.

Lemma keeps_locks_sendBirthdayEmail (to name : string) :
  keeps_locks (sendBirthdayEmail to name).
Proof.
  intros w. unfold sendBirthdayEmail, after.
  destruct (emailApi w) as [|[e|] rest]; split; reflexivity.
Qed.

#[local] Hint Resolve keeps_locks_forEach keeps_locks_repo_findOne_id
  keeps_locks_repo_increment_attempts keeps_locks_repo_find_failed
  keeps_locks_repo_query_pending keeps_locks_sendBirthdayEmail : locks.

Lemma keeps_locks_markAsSent (mid : string) : keeps_locks (markAsSent mid).
Proof. unfold markAsSent. auto with locks. Qed.

Lemma keeps_locks_markAsFailed (mid error : string) : keeps_locks (markAsFailed mid error).
Proof. unfold markAsFailed. auto with locks. Qed.

Lemma keeps_locks_resetToPending (mid : string) : keeps_locks (resetToPending mid).
Proof. unfold resetToPending. auto with locks. Qed.

Lemma keeps_locks_findById (mid : string) : keeps_locks (findById mid).
Proof. unfold findById. auto with locks. Qed.

Lemma keeps_locks_getFailedMessagesForRetry (maxAttempts : Z) (limit : nat) :
  keeps_locks (getFailedMessagesForRetry maxAttempts limit).
Proof. unfold getFailedMessagesForRetry. auto with locks. Qed.

#[local] Hint Resolve keeps_locks_markAsSent keeps_locks_markAsFailed
  keeps_locks_resetToPending keeps_locks_findById
  keeps_locks_getFailedMessagesForRetry : locks.

Lemma keeps_locks_recoverOne (m : Loaded) : keeps_locks (recoverOne m).
Proof. unfold recoverOne. destruct (user m); auto 8 with locks. Qed.

Lemma keeps_locks_retryOne (m : Loaded) : keeps_locks (retryOne m).
Proof. unfold retryOne. destruct (user m); auto 8 with locks. Qed.

#[local] Hint Resolve keeps_locks_recoverOne keeps_locks_retryOne : locks.

Lemma keeps_locks_recoverPendingMessages : keeps_locks recoverPendingMessages.
Proof.
  unfold recoverPendingMessages, getPendingMessagesToQueue.
  apply keeps_locks_bind; [auto with locks|].
  intros [|m rest]; auto with locks.
Qed.

Lemma keeps_locks_retryFailedMessages : keeps_locks retryFailedMessages.
Proof.
  unfold retryFailedMessages.
  apply keeps_locks_bind; [auto with locks|].
  intros [|m rest]; auto with locks.
Qed.

(** [try { body } finally { releaseLock(key) }]: the outcome is that of
    the body, and the key is gone. *)
Lemma try_finally_release {A : Type} (body : M A) (key : string) (w : World) :
  try_finally body (releaseLock key) w
  = (outcome (body w),
     set_redis (delete ("lock:" +:+ key) (redis (after (body w)))) (after (body w))).
Proof.
  unfold try_finally, releaseLock, modify, outcome, after.
  destruct (body w) as [r w']. reflexivity.
Qed.

(** [try { body } catch (error) { log }] never throws. *)
Lemma try_catch_logged (body : M unit) (w : World) :
  outcome (try_catch body (fun _ => ret tt) w) = Ok tt.
Proof.
  unfold try_catch, outcome. destruct (body w) as [[[]|e] w']; reflexivity.
Qed.

(** X3. Once [processMessage] has taken the processing lock of an entry,
    it gives it back on every way out (record missing, already sent,
    notifier succeeded, or notifier threw): afterwards Redis is as it was
    less that key, whatever other instances do to the ledger meanwhile.
    When the lock is held by someone else, the call changes nothing, the
    holder's key included. *)
Theorem processMessage_gives_the_lock_back (w : World) (payload : BirthdayMessagePayload) :
  (redis_exists (processLockKey payload) w = false ->
   redis (after (processMessage payload w)) = delete (processLockKey payload) (redis w)
   /\ redis_exists (processLockKey payload) (after (processMessage payload w)) = false)
  /\ (redis_exists (processLockKey payload) w = true ->
      after (processMessage payload w) = w).
Proof.
  split.
  - intros Hfree. unfold processMessage.
    rewrite (bind_ok _ _ _ _ _ (acquireLock_free _ 120 w Hfree)). cbn [negb].
    rewrite try_finally_release. cbn [after snd redis set_redis].
    match goal with
    | |- context [redis (after (?body ?w1))] =>
        assert (Hb : keeps_locks body)
          by (apply keeps_locks_bind; [auto with locks|];
              intros [m|]; [destruct (MessageStatus_eqb _ _)|]; auto with locks);
        destruct (Hb w1) as [Hr _]; rewrite Hr
    end.
    cbn [redis set_redis]. fold (processLockKey payload).
    assert (Hdel : delete (processLockKey payload)
                     (<[processLockKey payload := clock w + 120 * 1000]> (redis w))
                   = delete (processLockKey payload) (redis w))
      by apply delete_insert_eq.
    split; [exact Hdel|].
    unfold redis_exists. cbn [redis set_redis]. rewrite Hdel.
    now rewrite lookup_delete_eq.
  - intros Hheld. now rewrite processMessage_locked.
Qed.

Lemma processMessage_gives_the_lock_back_witness :
  redis_exists (processLockKey entry1) failingWorld = false
  /\ redis_exists (processLockKey entry1) (after (processMessage entry1 failingWorld)) = false
  /\ outcome (processMessage entry1 failingWorld) = Throw http500.
Proof.
  split; [reflexivity | split; [|reflexivity]].
  exact (proj2 (proj1 (processMessage_gives_the_lock_back failingWorld entry1) eq_refl)).
Defined.


(* ===================================================================== *)
(** ** Relations that every step of a run keeps *)
(* ===================================================================== *)

Create HintDb ledger.

Section Always.
Variable R : World -> World -> Prop.
Hypothesis R_refl : forall w, R w w.
Hypothesis R_trans : forall a b c, R a b -> R b c -> R a c.

Lemma always_ret {A : Type} (a : A) : always R (ret a).
Proof using R_refl. intros w. apply R_refl. Qed.

Lemma always_throw {A : Type} (e : Error) : always R (@throw A e).
Proof using R_refl. intros w. apply R_refl. Qed.

Lemma always_get_world : always R get_world.
Proof using R_refl. intros w. apply R_refl. Qed.

Lemma always_bind {A B : Type} (m : M A) (k : A -> M B) :
  always R m -> (forall a, always R (k a)) -> always R (bind m k).
Proof using R_trans.
  intros Hm Hk w. unfold bind, after. specialize (Hm w). unfold after in Hm.
  destruct (m w) as [[a|e] w']; cbn in *; [|exact Hm].
  eapply R_trans; [exact Hm | apply (Hk a w')].
Qed.

Lemma always_try_catch {A : Type} (body : M A) (handler : Error -> M A) :
  always R body -> (forall e, always R (handler e)) -> always R (try_catch body handler).
Proof using R_trans.
  intros Hb Hh w. unfold try_catch, after. specialize (Hb w). unfold after in Hb.
  destruct (body w) as [[a|e] w']; cbn in *; [exact Hb|].
  eapply R_trans; [exact Hb | apply (Hh e w')].
Qed.

Lemma always_try_finally {A : Type} (body : M A) (fin : M unit) :
  always R body -> always R fin -> always R (try_finally body fin).
Proof using R_trans.
  intros Hb Hf w. unfold try_finally, after. specialize (Hb w). unfold after in Hb.
  destruct (body w) as [r w']. cbn in Hb.
  specialize (Hf w'). unfold after in Hf.
  destruct (fin w') as [[[]|e] w'']; cbn in *; eapply R_trans; eassumption.
Qed.

Lemma always_forEach_In {A : Type} (xs : list A) (body : A -> M unit) :
  (forall x, In x xs -> always R (body x)) -> always R (forEach xs body).
Proof using R_refl R_trans.
  induction xs as [|x rest IH]; intros Hbody; cbn [forEach].
  - apply always_ret.
  - apply always_bind; [apply Hbody; left; reflexivity|].
    intros _. apply IH. intros y Hy. apply Hbody. right. exact Hy.
Qed.

Lemma always_forEach {A : Type} (xs : list A) (body : A -> M unit) :
  (forall x, always R (body x)) -> always R (forEach xs body).
Proof using R_refl R_trans. intros Hbody. apply always_forEach_In. auto. Qed.

Lemma always_modify (f : World -> World) :
  (forall w, R w (f w)) -> always R (modify f).
Proof. intros Hf w. apply Hf. Qed.

#[local] Hint Resolve always_ret always_throw always_get_world always_bind
  always_try_catch always_try_finally always_forEach always_modify : ledger.

(** From here on [R] looks at the message table and at the statements of
    other instances only, and is kept by the three ways the table
    changes: a statement of another instance, an update of the rows with
    some id that lets them evolve, and the insert of a draft that [Ins]
    admits. *)
Hypothesis R_frame :
  forall w w',
    birthday_messages w' = birthday_messages w -> others w' = others w -> R w w'.
Hypothesis R_interleave : always R interleave.
Hypothesis R_patch :
  forall w mid f,
    (forall r, row_evolves r (f r)) ->
    R w (set_messages (patch_rows mid (clock w) f (birthday_messages w)) w).
Variable Ins : Draft -> Prop.
Hypothesis R_insert :
  forall w d,
    Ins d ->
    violates_unique (draftUserId d) (draftYear d) (birthday_messages w) = false ->
    R w (set_messages (birthday_messages w ++ [inserted_row d w]) w).

Lemma always_frame {A : Type} (m : M A) :
  (forall w, birthday_messages (after (m w)) = birthday_messages w
             /\ others (after (m w)) = others w) ->
  always R m.
Proof using R_frame. intros Hm w. destruct (Hm w). now apply R_frame. Qed.

Lemma always_acquireLock (key : string) (ttl : Z) : always R (acquireLock key ttl).
Proof using R_frame.
  apply always_frame. intros w. unfold acquireLock, after.
  destruct (redis_exists _ w); split; reflexivity.
Qed.

Lemma always_releaseLock (key : string) : always R (releaseLock key).
Proof using R_frame. apply always_frame. intros w. split; reflexivity. Qed.

Lemma always_publish (payload : BirthdayMessagePayload) :
  always R (publishBirthdayMessage payload).
Proof using R_frame.
  apply always_frame. intros w. unfold publishBirthdayMessage, bind, get_world, after.
  destruct (producerChannel w); split; reflexivity.
Qed.

Lemma always_channel_ack (msg : BirthdayMessagePayload) : always R (channel_ack msg).
Proof using R_frame. apply always_frame. intros w. split; reflexivity. Qed.

Lemma always_channel_reject (msg : BirthdayMessagePayload) : always R (channel_reject msg).
Proof using R_frame. apply always_frame. intros w. split; reflexivity. Qed.

Lemma always_setTimeout_nack (msg : BirthdayMessagePayload) (delay : option Z) :
  always R (setTimeout_nack msg delay).
Proof using R_frame. apply always_frame. intros w. split; reflexivity. Qed.

Lemma always_deliver : always R deliver.
Proof using R_frame.
  apply always_frame. intros w. unfold deliver, after.
  destruct (birthdayQueue w); split; reflexivity.
Qed.

Lemma always_sendBirthdayEmail (to name : string) : always R (sendBirthdayEmail to name).
Proof using R_frame.
  apply always_frame. intros w. unfold sendBirthdayEmail, after.
  destruct (emailApi w) as [|[e|] rest]; split; reflexivity.
Qed.

Lemma always_findUsers (month day : Z) (timezones : list string) :
  always R (findUsersWithBirthdayInTimezones month day timezones).
Proof using R_frame.
  apply always_frame. intros w. unfold findUsersWithBirthdayInTimezones.
  destruct timezones; split; reflexivity.
Qed.

#[local] Hint Resolve always_acquireLock always_releaseLock always_publish
  always_channel_ack always_channel_reject always_setTimeout_nack always_deliver
  always_sendBirthdayEmail always_findUsers R_interleave : ledger.

Lemma always_repo_findOne_user_year (uid : string) (y : Z) :
  always R (repo_findOne_user_year uid y).
Proof using R_trans R_frame R_interleave.
  unfold repo_findOne_user_year. apply always_bind; [auto with ledger|].
  intros _. apply always_frame. intros w. split; reflexivity.
Qed.

Lemma always_repo_findOne_id (mid : string) : always R (repo_findOne_id mid).
Proof using R_trans R_frame R_interleave.
  unfold repo_findOne_id. apply always_bind; [auto with ledger|].
  intros _. apply always_frame. intros w. split; reflexivity.
Qed.

Lemma always_repo_find_failed (limit : nat) : always R (repo_find_failed limit).
Proof using R_trans R_frame R_interleave.
  unfold repo_find_failed. apply always_bind; [auto with ledger|].
  intros _. apply always_frame. intros w. split; reflexivity.
Qed.

Lemma always_repo_query_pending : always R repo_query_pending.
Proof using R_trans R_frame R_interleave.
  unfold repo_query_pending. apply always_bind; [auto with ledger|].
  intros _. apply always_frame. intros w. split; reflexivity.
Qed.

Lemma always_repo_save (d : Draft) : Ins d -> always R (repo_save d).
Proof using R_trans R_frame R_interleave R_insert.
  intros Hins. unfold repo_save. apply always_bind; [auto with ledger|].
  intros _ w. unfold after.
  destruct (violates_unique (draftUserId d) (draftYear d) (birthday_messages w)) eqn:Hv;
    cbn [snd].
  - apply R_frame; reflexivity.
  - eapply R_trans; [apply (R_insert w d Hins Hv)|]. apply R_frame; reflexivity.
Qed.

Lemma always_repo_update (mid : string) (st : MessageStatus)
    (patch : BirthdayMessage -> BirthdayMessage) :
  (forall r, row_evolves r (patch r)) -> always R (repo_update mid st patch).
Proof using R_trans R_frame R_interleave R_patch.
  intros Hpatch. unfold repo_update. apply always_bind; [auto with ledger|].
  intros _. apply always_modify. intros w.
  eapply R_trans; [apply (R_patch w mid (fun r => set_status st (patch r)))|].
  - intros r. apply Hpatch.
  - apply R_frame; reflexivity.
Qed.

Lemma always_repo_increment_attempts (mid : string) (n : Z) :
  0 <= n -> always R (repo_increment_attempts mid n).
Proof using R_trans R_frame R_interleave R_patch.
  intros Hn. unfold repo_increment_attempts. apply always_bind; [auto with ledger|].
  intros _. apply always_modify. intros w.
  eapply R_trans;
    [apply (R_patch w mid (fun r => set_attempts (attempts r + n) r))|].
  - intros r. unfold row_evolves. cbn. repeat split; try reflexivity; lia.
  - apply R_frame; reflexivity.
Qed.

Lemma row_evolves_refl (r : BirthdayMessage) : row_evolves r r.
Proof. unfold row_evolves. repeat split; try reflexivity; lia. Qed.

Lemma always_markAsQueued (mid : string) : always R (markAsQueued mid).
Proof using R_trans R_frame R_interleave R_patch.
  apply always_repo_update. apply row_evolves_refl.
Qed.

Lemma always_resetToPending (mid : string) : always R (resetToPending mid).
Proof using R_trans R_frame R_interleave R_patch.
  apply always_repo_update. apply row_evolves_refl.
Qed.

Lemma always_markAsSent (mid : string) : always R (markAsSent mid).
Proof using R_refl R_trans R_frame R_interleave R_patch.
  unfold markAsSent. apply always_bind; [auto with ledger|].
  intros w0. apply always_repo_update. intros r.
  unfold row_evolves. cbn. repeat split; try reflexivity; lia.
Qed.

Lemma always_markAsFailed (mid error : string) : always R (markAsFailed mid error).
Proof using R_trans R_frame R_interleave R_patch.
  unfold markAsFailed. apply always_bind.
  - apply always_repo_increment_attempts. lia.
  - intros _. apply always_repo_update. intros r.
    unfold row_evolves. cbn. repeat split; try reflexivity; lia.
Qed.

Lemma always_findById (mid : string) : always R (findById mid).
Proof using R_trans R_frame R_interleave. apply always_repo_findOne_id. Qed.

Lemma always_getFailedMessagesForRetry (maxAttempts : Z) (limit : nat) :
  always R (getFailedMessagesForRetry maxAttempts limit).
Proof using R_refl R_trans R_frame R_interleave.
  unfold getFailedMessagesForRetry.
  apply always_bind; [apply always_repo_find_failed | auto with ledger].
Qed.

Lemma always_getUnsentMessages (limit : nat) : always R (getUnsentMessages limit).
Proof using R_refl R_trans R_frame R_interleave.
  unfold getUnsentMessages. apply always_bind; [auto with ledger|].
  intros w0. apply always_bind; [auto with ledger|].
  intros _. apply always_frame. intros w. split; reflexivity.
Qed.

#[local] Hint Resolve always_repo_findOne_user_year always_repo_findOne_id
  always_repo_find_failed always_repo_query_pending always_markAsQueued
  always_resetToPending always_markAsSent always_markAsFailed always_findById
  always_getFailedMessagesForRetry always_getUnsentMessages : ledger.

Lemma always_createBirthdayMessage (u : User) (scheduledFor_ : Z) :
  (forall y, Ins (mkDraft (usrId u) y scheduledFor_ PENDING)) ->
  always R (createBirthdayMessage u scheduledFor_).
Proof using R_refl R_trans R_frame R_interleave R_insert.
  intros Hins. unfold createBirthdayMessage.
  apply always_bind; [auto with ledger|]. intros w0.
  apply always_try_catch.
  - apply always_bind; [auto with ledger|].
    intros [existing|]; [auto with ledger|].
    apply always_bind; [apply always_repo_save, Hins | auto with ledger].
  - intros e. destruct (is_code _ e); auto with ledger.
Qed.

Lemma always_createAndQueue (u : User) (timezone_ : string) :
  (forall y sf, Ins (mkDraft (usrId u) y sf PENDING)) ->
  always R (createAndQueueBirthdayMessage u timezone_).
Proof using R_refl R_trans R_frame R_interleave R_patch R_insert.
  intros Hins. unfold createAndQueueBirthdayMessage.
  apply always_bind; [auto with ledger|]. intros w0.
  apply always_bind; [auto with ledger|]. intros [|]; cbn [negb]; [|auto with ledger].
  apply always_try_finally; [|auto with ledger].
  apply always_bind; [auto with ledger|]. intros w1.
  apply always_bind; [apply always_createBirthdayMessage; intros y; apply Hins|].
  intros [m|]; auto with ledger.
Qed.

Lemma always_processMessage (payload : BirthdayMessagePayload) :
  always R (processMessage payload).
Proof using R_refl R_trans R_frame R_interleave R_patch.
  unfold processMessage.
  apply always_bind; [auto with ledger|]. intros [|]; cbn [negb]; [|auto with ledger].
  apply always_try_finally; [|auto with ledger].
  apply always_bind; [auto with ledger|].
  intros [m|]; [|auto with ledger].
  destruct (MessageStatus_eqb _ _); auto with ledger.
Qed.

Lemma always_handleFailure (msg payload : BirthdayMessagePayload) (error : Error) :
  always R (handleFailure msg payload error).
Proof using R_refl R_trans R_frame R_interleave R_patch.
  unfold handleFailure. apply always_bind; [auto with ledger|].
  intros message_. destruct (MAX_RETRY_ATTEMPTS <=? _); auto with ledger.
Qed.

Lemma always_onMessage (msg : BirthdayMessagePayload) : always R (onMessage msg).
Proof using R_refl R_trans R_frame R_interleave R_patch.
  unfold onMessage. apply always_try_catch.
  - apply always_bind; [apply always_processMessage | auto with ledger].
  - intros e. apply always_handleFailure.
Qed.

Lemma always_consumeNext : always R consumeNext.
Proof using R_refl R_trans R_frame R_interleave R_patch.
  unfold consumeNext. apply always_bind; [auto with ledger|].
  intros [msg|]; [apply always_onMessage | auto with ledger].
Qed.

Lemma always_recoverOne (m : Loaded) : always R (recoverOne m).
Proof using R_refl R_trans R_frame R_interleave R_patch.
  unfold recoverOne. destruct (user m); auto 8 with ledger.
Qed.

Lemma always_retryOne (m : Loaded) : always R (retryOne m).
Proof using R_refl R_trans R_frame R_interleave R_patch.
  unfold retryOne. destruct (user m); auto 8 with ledger.
Qed.

Lemma always_recoverPendingMessages : always R recoverPendingMessages.
Proof using R_refl R_trans R_frame R_interleave R_patch.
  unfold recoverPendingMessages, getPendingMessagesToQueue.
  apply always_bind; [auto with ledger|].
  intros [|m rest]; [auto with ledger|].
  apply always_forEach. apply always_recoverOne.
Qed.

Lemma always_retryFailedMessages : always R retryFailedMessages.
Proof using R_refl R_trans R_frame R_interleave R_patch.
  unfold retryFailedMessages. apply always_bind; [auto with ledger|].
  intros [|m rest]; [auto with ledger|].
  apply always_forEach. apply always_retryOne.
Qed.

Lemma always_recoverUnsentMessages : always R recoverUnsentMessages.
Proof using R_refl R_trans R_frame R_interleave R_patch.
  unfold recoverUnsentMessages.
  apply always_bind; [auto with ledger|]. intros [|]; cbn [negb]; [|auto with ledger].
  apply always_try_finally; [|auto with ledger].
  apply always_try_catch; [|auto with ledger].
  apply always_bind; [apply always_recoverPendingMessages|].
  intros _. apply always_retryFailedMessages.
Qed.

Lemma always_publishBatch (payloads : list BirthdayMessagePayload) :
  always R (publishBatch payloads).
Proof using R_refl R_trans R_frame.
  unfold publishBatch. apply always_forEach. apply always_publish.
Qed.

Lemma always_processBirthdaysForTimezone (timezone_ : string) :
  (forall d, Ins d) -> always R (processBirthdaysForTimezone timezone_).
Proof using R_refl R_trans R_frame R_interleave R_patch R_insert.
  intros Hins. unfold processBirthdaysForTimezone.
  apply always_try_catch; [|auto with ledger].
  apply always_bind; [auto with ledger|]. intros w0.
  apply always_bind; [auto with ledger|]. intros users.
  apply always_forEach. intros u. apply always_createAndQueue. intros y sf. apply Hins.
Qed.

Lemma always_checkBirthdays (isTestMode : bool) :
  (forall d, Ins d) -> always R (checkBirthdays isTestMode).
Proof using R_refl R_trans R_frame R_interleave R_patch R_insert.
  intros Hins. unfold checkBirthdays.
  apply always_bind; [auto with ledger|]. intros [|]; cbn [negb]; [|auto with ledger].
  apply always_try_finally; [|auto with ledger].
  apply always_try_catch; [|auto with ledger].
  apply always_bind; [auto with ledger|]. intros w0.
  destruct (getTimezonesAtTime _ _ _ w0); [auto with ledger|].
  apply always_forEach. intros tz. apply always_processBirthdaysForTimezone, Hins.
Qed.
End Always.

(** What keeps the locks and the clock leaves every key as it is. *)
Lemma keeps_locks_leaves_key {A : Type} (k : string) (m : M A) :
  keeps_locks m -> always (leaves_key k) m.
Proof. intros Hm w. unfold leaves_key. destruct (Hm w) as [Hr _]. now rewrite Hr. Qed.

Lemma leaves_key_refl (k : string) (w : World) : leaves_key k w w.
Proof. reflexivity. Qed.

Lemma leaves_key_trans (k : string) (a b c : World) :
  leaves_key k a b -> leaves_key k b c -> leaves_key k a c.
Proof. unfold leaves_key. congruence. Qed.

Lemma userLockKey_prefix (u : User) (w : World) :
  exists s, "lock:" +:+ userLockKey u w = "lock:birthday-user-" +:+ s.
Proof. unfold userLockKey. eexists. cbn. reflexivity. Qed.

Lemma createAndQueue_leaves_other_keys (k : string) (u : User) (timezone_ : string) :
  (forall s, k <> "lock:birthday-user-" +:+ s) ->
  always (leaves_key k) (createAndQueueBirthdayMessage u timezone_).
Proof.
  intros Hk w. unfold createAndQueueBirthdayMessage. rewrite (bind_get_world (B:=unit)).
  unfold bind at 1, acquireLock.
  destruct (redis_exists ("lock:" +:+ userLockKey u w) w); cbn [negb];
    [apply leaves_key_refl|].
  eapply leaves_key_trans.
  2:{ apply (keeps_locks_leaves_key k).
      apply keeps_locks_try_finally; [|auto with locks].
      apply keeps_locks_bind; [auto with locks|]. intros w'.
      apply keeps_locks_bind; [auto with locks|].
      intros [m|]; auto with locks. }
  unfold leaves_key. cbn [redis set_redis].
  apply lookup_insert_ne. destruct (userLockKey_prefix u w) as [s Hs].
  rewrite Hs. intros E. exact (Hk s (eq_sym E)).
Qed.

Lemma processBirthdaysForTimezone_leaves_other_keys (k : string) (timezone_ : string) :
  (forall s, k <> "lock:birthday-user-" +:+ s) ->
  always (leaves_key k) (processBirthdaysForTimezone timezone_).
Proof.
  intros Hk. unfold processBirthdaysForTimezone.
  apply always_try_catch; try apply leaves_key_trans.
  - apply always_bind; try apply leaves_key_trans.
    + apply always_get_world, leaves_key_refl.
    + intros w0. apply always_bind; try apply leaves_key_trans.
      * intros w. unfold findUsersWithBirthdayInTimezones. apply leaves_key_refl.
      * intros users. apply always_forEach;
          [apply leaves_key_refl | apply leaves_key_trans |].
        intros u. apply createAndQueue_leaves_other_keys, Hk.
  - intros e. apply always_ret, leaves_key_refl.
Qed.


(* ===================================================================== *)
(** ** Further properties: the ledger only grows, and stays unique *)
(* ===================================================================== *)

Lemma row_evolves_trans (a b c : BirthdayMessage) :
  row_evolves a b -> row_evolves b c -> row_evolves a c.
Proof.
  unfold row_evolves. intros [? [? [? [? [? [? ?]]]]]] [? [? [? [? [? [? ?]]]]]].
  repeat split; try congruence; lia.
Qed.

Lemma Forall2_row_evolves_refl (l : list BirthdayMessage) : Forall2 row_evolves l l.
Proof. induction l; constructor; [apply row_evolves_refl | assumption]. Qed.

Lemma Forall2_row_evolves_trans (l1 l2 l3 : list BirthdayMessage) :
  Forall2 row_evolves l1 l2 -> Forall2 row_evolves l2 l3 -> Forall2 row_evolves l1 l3.
Proof.
  intros H12. revert l3. induction H12 as [|a b l1 l2 Hab _ IH]; intros l3 H23.
  - inversion H23. constructor.
  - inversion H23 as [|b' c l2' l3' Hbc Hrest]; subst. constructor.
    + eapply row_evolves_trans; eassumption.
    + apply IH. exact Hrest.
Qed.

Lemma Forall2_row_evolves_patch (mid : string) (now : Z)
    (f : BirthdayMessage -> BirthdayMessage) (l : list BirthdayMessage) :
  (forall r, row_evolves r (f r)) ->
  Forall2 row_evolves l (patch_rows mid now f l).
Proof.
  intros Hf. induction l as [|r rest IH]; cbn; constructor; [|exact IH].
  destruct (has_id mid r); [|apply row_evolves_refl].
  eapply row_evolves_trans; [apply Hf|].
  unfold row_evolves. cbn. repeat split; try reflexivity; lia.
Qed.

Lemma ledger_evolves_refl (l : list BirthdayMessage) : ledger_evolves l l.
Proof.
  exists l, []. split; [now rewrite app_nil_r | apply Forall2_row_evolves_refl].
Qed.

Lemma ledger_evolves_trans (l1 l2 l3 : list BirthdayMessage) :
  ledger_evolves l1 l2 -> ledger_evolves l2 l3 -> ledger_evolves l1 l3.
Proof.
  intros [k1 [e1 [-> H1]]] [k2 [e2 [-> H2]]].
  apply List.Forall2_app_inv_l in H2. destruct H2 as [k2a [k2b [Ha [_ ->]]]].
  exists k2a, (k2b ++ e2). split; [now rewrite app_assoc|].
  eapply Forall2_row_evolves_trans; eassumption.
Qed.

Lemma ledger_evolves_interleave :
  always (fun w w' => ledger_evolves (birthday_messages w) (birthday_messages w'))
    interleave.
Proof.
  intros w. unfold interleave, after.
  destruct (others w) as [|[|m|mid] rest]; cbn; try apply ledger_evolves_refl.
  match goal with
  | |- context [if ?b then _ else _] => destruct b
  end; cbn; [apply ledger_evolves_refl|].
  exists (birthday_messages w), [m]. split; [reflexivity | apply Forall2_row_evolves_refl].
Qed.

(** X6. No run of the pipeline deletes or reorders a record or rewrites
    what identifies it: after the per-recipient step, the handling of a
    queue entry, a delivery, a reconciler run, a whole scan or a batch
    publish, every row that was in the table is still there at its place
    with the same id, recipient, year, type, scheduled-for and creation
    stamp and an attempt count that is no lower, and new rows only come
    after them; this whatever other instances do in between. *)
Theorem pipeline_never_deletes_or_rewrites_identity (w : World) :
  let grown (w' : World) :=
    ledger_evolves (birthday_messages w) (birthday_messages w') in
  (forall u tz, grown (after (createAndQueueBirthdayMessage u tz w)))
  /\ (forall msg, grown (after (onMessage msg w)))
  /\ grown (after (consumeNext w))
  /\ grown (after (recoverUnsentMessages w))
  /\ (forall isTestMode, grown (after (checkBirthdays isTestMode w)))
  /\ (forall payloads, grown (after (publishBatch payloads w))).
Proof.
  set (R := fun w w' => ledger_evolves (birthday_messages w) (birthday_messages w')).
  assert (Hrefl : forall w, R w w) by (intros; apply ledger_evolves_refl).
  assert (Htrans : forall a b c, R a b -> R b c -> R a c)
    by (intros a b c; apply ledger_evolves_trans).
  assert (Hframe : forall w w', birthday_messages w' = birthday_messages w ->
                                others w' = others w -> R w w')
    by (intros a b Hm _; unfold R; rewrite Hm; apply ledger_evolves_refl).
  assert (Hpatch : forall w mid f, (forall r, row_evolves r (f r)) ->
             R w (set_messages (patch_rows mid (clock w) f (birthday_messages w)) w)).
  { intros a mid f Hf. exists (patch_rows mid (clock a) f (birthday_messages a)), [].
    split; [cbn; now rewrite app_nil_r | now apply Forall2_row_evolves_patch]. }
  assert (Hinsert : forall w d, True ->
             violates_unique (draftUserId d) (draftYear d) (birthday_messages w) = false ->
             R w (set_messages (birthday_messages w ++ [inserted_row d w]) w)).
  { intros a d _ _. exists (birthday_messages a), [inserted_row d a].
    split; [reflexivity | apply Forall2_row_evolves_refl]. }
  cbv zeta. repeat split; intros.
  - now apply (always_createAndQueue R Hrefl Htrans Hframe ledger_evolves_interleave
                 Hpatch (fun _ => True) Hinsert).
  - now apply (always_onMessage R Hrefl Htrans Hframe ledger_evolves_interleave Hpatch).
  - now apply (always_consumeNext R Hrefl Htrans Hframe ledger_evolves_interleave Hpatch).
  - now apply (always_recoverUnsentMessages R Hrefl Htrans Hframe
                 ledger_evolves_interleave Hpatch).
  - now apply (always_checkBirthdays R Hrefl Htrans Hframe ledger_evolves_interleave
                 Hpatch (fun _ => True) Hinsert).
  - now apply (always_publishBatch R Hrefl Htrans Hframe).
Qed.

Lemma violates_unique_false_notin (uid : string) (y : Z) (l : list BirthdayMessage) :
  violates_unique uid y l = false -> ~ In (uid, y) (map user_year l).
Proof.
  unfold violates_unique. induction l as [|r rest IH]; cbn; [tauto|].
  intros H. apply orb_false_iff in H. destruct H as [Hr Hrest].
  intros [Heq | Hin]; [|exact (IH Hrest Hin)].
  unfold user_year in Heq. injection Heq as Hu Hy.
  unfold same_user_year in Hr. rewrite Hu, Hy in Hr.
  rewrite String.eqb_refl, Z.eqb_refl in Hr. discriminate Hr.
Qed.

Lemma unique_user_year_insert (l : list BirthdayMessage) (m : BirthdayMessage) :
  violates_unique (userId m) (year m) l = false ->
  unique_user_year l -> unique_user_year (l ++ [m]).
Proof.
  intros Hv Hl. unfold unique_user_year in *. rewrite map_app. cbn.
  apply (Permutation_NoDup (Permutation_cons_append _ _)).
  constructor; [exact (violates_unique_false_notin _ _ _ Hv) | exact Hl].
Qed.

Lemma user_year_patch_rows (mid : string) (now : Z)
    (f : BirthdayMessage -> BirthdayMessage) (l : list BirthdayMessage) :
  (forall r, row_evolves r (f r)) ->
  map user_year (patch_rows mid now f l) = map user_year l.
Proof.
  intros Hf. unfold patch_rows. rewrite List.map_map. apply List.map_ext.
  intros r. destruct (has_id mid r); [|reflexivity].
  destruct (Hf r) as [_ [Hu [Hy _]]]. unfold user_year. cbn. now rewrite Hu, Hy.
Qed.

Lemma unique_user_year_interleave :
  always (fun w w' => unique_user_year (birthday_messages w) ->
                      unique_user_year (birthday_messages w'))
    interleave.
Proof.
  intros w. unfold interleave, after.
  destruct (others w) as [|[|m|mid] rest]; cbn [snd run_other];
    try (intros H; exact H).
  change (birthday_messages (set_others rest w)) with (birthday_messages w).
  destruct (violates_unique (userId m) (year m) (birthday_messages w)) eqn:Hv;
    [intros H; exact H|].
  cbn [birthday_messages set_messages set_others]. now apply unique_user_year_insert.
Qed.

(** X7. The uniqueness of (recipient, year) is an invariant of the
    pipeline: if the table holds at most one record per recipient and
    year, it still does after the per-recipient step, the handling of a
    queue entry, a delivery, a reconciler run or a whole scan; this
    whatever other instances insert in between, their inserts being held
    to the same constraint. *)
Theorem unique_user_year_is_kept (w : World) :
  unique_user_year (birthday_messages w) ->
  let unique (w' : World) := unique_user_year (birthday_messages w') in
  (forall u tz, unique (after (createAndQueueBirthdayMessage u tz w)))
  /\ (forall u scheduledFor_, unique (after (createBirthdayMessage u scheduledFor_ w)))
  /\ (forall msg, unique (after (onMessage msg w)))
  /\ unique (after (consumeNext w))
  /\ unique (after (recoverUnsentMessages w))
  /\ (forall isTestMode, unique (after (checkBirthdays isTestMode w))).
Proof.
  intros Hw.
  set (R := fun w w' => unique_user_year (birthday_messages w) ->
                        unique_user_year (birthday_messages w')).
  assert (Hrefl : forall w, R w w) by (intros a H; exact H).
  assert (Htrans : forall a b c, R a b -> R b c -> R a c)
    by (intros a b c Hab Hbc H; exact (Hbc (Hab H))).
  assert (Hframe : forall w w', birthday_messages w' = birthday_messages w ->
                                others w' = others w -> R w w')
    by (intros a b Hm _ H; now rewrite Hm).
  assert (Hpatch : forall w mid f, (forall r, row_evolves r (f r)) ->
             R w (set_messages (patch_rows mid (clock w) f (birthday_messages w)) w)).
  { intros a mid f Hf H. unfold unique_user_year in *. cbn.
    now rewrite user_year_patch_rows. }
  assert (Hinsert : forall w d, True ->
             violates_unique (draftUserId d) (draftYear d) (birthday_messages w) = false ->
             R w (set_messages (birthday_messages w ++ [inserted_row d w]) w)).
  { intros a d _ Hv H. cbn. now apply unique_user_year_insert. }
  cbv zeta. repeat split; intros.
  - now apply (always_createAndQueue R Hrefl Htrans Hframe unique_user_year_interleave
                 Hpatch (fun _ => True) Hinsert u tz (fun _ _ => I) w).
  - now apply (always_createBirthdayMessage R Hrefl Htrans Hframe
                 unique_user_year_interleave (fun _ => True) Hinsert u scheduledFor_
                 (fun _ => I) w).
  - now apply (always_onMessage R Hrefl Htrans Hframe unique_user_year_interleave
                 Hpatch msg w).
  - now apply (always_consumeNext R Hrefl Htrans Hframe unique_user_year_interleave
                 Hpatch w).
  - now apply (always_recoverUnsentMessages R Hrefl Htrans Hframe
                 unique_user_year_interleave Hpatch w).
  - now apply (always_checkBirthdays R Hrefl Htrans Hframe unique_user_year_interleave
                 Hpatch (fun _ => True) Hinsert isTestMode (fun _ => I) w).
Qed.

Lemma unique_user_year_is_kept_witness :
  unique_user_year (birthday_messages queuedWorld)
  /\ unique_user_year (birthday_messages (after (consumeNext queuedWorld))).
Proof.
  assert (Hu : unique_user_year (birthday_messages queuedWorld)).
  { unfold unique_user_year. cbn. constructor; [intros [] | constructor]. }
  split; [exact Hu|].
  exact (proj1 (proj2 (proj2 (proj2 (unique_user_year_is_kept queuedWorld Hu))))).
Defined.

(* ===================================================================== *)
(** ** Further properties: the scan of one zone *)
(* ===================================================================== *)

Lemma inserts_only_for_refl (ids : list string) (w : World) : inserts_only_for ids w w.
Proof.
  intros Hq. split; [exact Hq|].
  exists (birthday_messages w), []. split; [now rewrite app_nil_r|].
  split; [apply Forall2_row_evolves_refl | constructor].
Qed.

Lemma Forall2_row_evolves_userId (ids : list string) (l l' : list BirthdayMessage) :
  Forall2 row_evolves l l' ->
  Forall (fun r => In (userId r) ids) l -> Forall (fun r => In (userId r) ids) l'.
Proof.
  induction 1 as [|a b l l' Hab _ IH]; intros Hl; [constructor|].
  inversion Hl as [|? ? Ha Hrest]; subst. constructor; [|exact (IH Hrest)].
  destruct Hab as [_ [Hu _]]. now rewrite Hu.
Qed.

Lemma inserts_only_for_trans (ids : list string) (a b c : World) :
  inserts_only_for ids a b -> inserts_only_for ids b c -> inserts_only_for ids a c.
Proof.
  intros Hab Hbc Hq. destruct (Hab Hq) as [Hqb [k1 [e1 [E1 [F1 P1]]]]].
  destruct (Hbc Hqb) as [Hqc [k2 [e2 [E2 [F2 P2]]]]]. split; [exact Hqc|].
  rewrite E1 in F2. apply List.Forall2_app_inv_l in F2.
  destruct F2 as [k2a [k2b [Fa [Fb ->]]]].
  exists k2a, (k2b ++ e2). split; [now rewrite E2, app_assoc|]. split.
  - eapply Forall2_row_evolves_trans; eassumption.
  - apply Forall_app. split; [|exact P2].
    exact (Forall2_row_evolves_userId ids _ _ Fb P1).
Qed.

Lemma inserts_only_for_frame (ids : list string) (w w' : World) :
  birthday_messages w' = birthday_messages w -> others w' = others w ->
  inserts_only_for ids w w'.
Proof.
  intros Hm Ho Hq. split; [now rewrite Ho|]. rewrite Hm.
  exists (birthday_messages w), []. split; [now rewrite app_nil_r|].
  split; [apply Forall2_row_evolves_refl | constructor].
Qed.

Lemma inserts_only_for_interleave (ids : list string) :
  always (inserts_only_for ids) interleave.
Proof.
  intros w Hq. rewrite interleave_quiet by exact Hq.
  now apply inserts_only_for_refl.
Qed.

Lemma inserts_only_for_patch (ids : list string) (w : World) (mid : string)
    (f : BirthdayMessage -> BirthdayMessage) :
  (forall r, row_evolves r (f r)) ->
  inserts_only_for ids w
    (set_messages (patch_rows mid (clock w) f (birthday_messages w)) w).
Proof.
  intros Hf Hq. split; [exact Hq|].
  exists (patch_rows mid (clock w) f (birthday_messages w)), [].
  split; [cbn; now rewrite app_nil_r|].
  split; [now apply Forall2_row_evolves_patch | constructor].
Qed.

Lemma inserts_only_for_insert (ids : list string) (w : World) (d : Draft) :
  In (draftUserId d) ids ->
  violates_unique (draftUserId d) (draftYear d) (birthday_messages w) = false ->
  inserts_only_for ids w
    (set_messages (birthday_messages w ++ [inserted_row d w]) w).
Proof.
  intros Hin _ Hq. split; [exact Hq|].
  exists (birthday_messages w), [inserted_row d w]. split; [reflexivity|].
  split; [apply Forall2_row_evolves_refl|]. constructor; [exact Hin | constructor].
Qed.

Lemma birthdayUsers_spec (timezone_ : string) (w : World) (u : User) :
  In u (birthdayUsers timezone_ w) ->
  In u (usersTable w) /\ timezone u = timezone_
  /\ birthdayMonth u = moment_get_month (moment_tz timezone_ w) + 1
  /\ birthdayDay u = moment_get_date (moment_tz timezone_ w).
Proof.
  unfold birthdayUsers. intros Hin. apply filter_In in Hin. destruct Hin as [Hin Hb].
  apply andb_true_iff in Hb. destruct Hb as [Hb Htz].
  apply andb_true_iff in Hb. destruct Hb as [Hm Hd].
  cbn in Htz. rewrite orb_false_r in Htz.
  apply String.eqb_eq in Htz. apply Z.eqb_eq in Hm. apply Z.eqb_eq in Hd.
  repeat split; assumption.
Qed.

Lemma processBirthdaysForTimezone_unfold (timezone_ : string) (w : World) :
  processBirthdaysForTimezone timezone_ w
  = try_catch
      (forEach (birthdayUsers timezone_ w)
         (fun u => createAndQueueBirthdayMessage u timezone_))
      (fun _ => ret tt) w.
Proof. reflexivity. Qed.

(** X8. [processBirthdaysForTimezone] never throws, and when nobody else
    writes, the records it adds are only for recipients of that zone
    whose birthday month and day are the zone's date at that moment; the
    rows that were there stay in place. *)
Theorem zone_scan_inserts_only_for_birthday_users (w : World) (timezone_ : string) :
  others w = [] ->
  let w' := after (processBirthdaysForTimezone timezone_ w) in
  outcome (processBirthdaysForTimezone timezone_ w) = Ok tt
  /\ exists kept extra,
       birthday_messages w' = kept ++ extra
       /\ Forall2 row_evolves (birthday_messages w) kept
       /\ Forall
            (fun r =>
               exists u,
                 In u (usersTable w) /\ userId r = usrId u
                 /\ timezone u = timezone_
                 /\ birthdayMonth u = moment_get_month (moment_tz timezone_ w) + 1
                 /\ birthdayDay u = moment_get_date (moment_tz timezone_ w))
            extra.
Proof.
  intros Hq w'. subst w'. rewrite processBirthdaysForTimezone_unfold.
  split; [apply try_catch_logged|].
  set (ids := map usrId (birthdayUsers timezone_ w)).
  assert (Hloop : always (inserts_only_for ids)
                    (forEach (birthdayUsers timezone_ w)
                       (fun u => createAndQueueBirthdayMessage u timezone_))).
  { apply always_forEach_In;
      [apply inserts_only_for_refl | apply inserts_only_for_trans |].
    intros u Hu.
    apply (always_createAndQueue (inserts_only_for ids)
             (inserts_only_for_refl ids) (inserts_only_for_trans ids)
             (inserts_only_for_frame ids) (inserts_only_for_interleave ids)
             (inserts_only_for_patch ids)
             (fun d => In (draftUserId d) ids) (inserts_only_for_insert ids)).
    intros y sf. cbn. subst ids. apply in_map. exact Hu. }
  assert (Hrun : inserts_only_for ids w
                   (after (try_catch
                             (forEach (birthdayUsers timezone_ w)
                                (fun u => createAndQueueBirthdayMessage u timezone_))
                             (fun _ => ret tt) w))).
  { apply (always_try_catch (inserts_only_for ids) (inserts_only_for_trans ids));
      [exact Hloop|].
    intros e. apply always_ret, inserts_only_for_refl. }
  destruct (Hrun Hq) as [_ [kept [extra [E [F P]]]]].
  exists kept, extra. split; [exact E | split; [exact F|]].
  eapply List.Forall_impl; [|exact P]. intros r Hr. cbn in Hr.
  subst ids. apply in_map_iff in Hr. destruct Hr as [u [Hid Hu]].
  destruct (birthdayUsers_spec _ _ _ Hu) as [Hin [Htz [Hm Hd]]].
  exists u. repeat split; try assumption. now symmetry.
Qed.

Lemma zone_scan_inserts_only_for_birthday_users_witness :
  others newYearWorld = []
  /\ outcome (processBirthdaysForTimezone "Pacific/Kiritimati" newYearWorld) = Ok tt.
Proof.
  split; [reflexivity|].
  exact (proj1 (zone_scan_inserts_only_for_birthday_users newYearWorld
                  "Pacific/Kiritimati" eq_refl)).
Defined.

Lemma forEach_throws {A : Type} (x : A) (rest : list A) (body : A -> M unit)
    (w w' : World) (e : Error) :
  body x w = (Throw e, w') -> forEach (x :: rest) body w = (Throw e, w').
Proof. intros H. cbn [forEach]. unfold bind. now rewrite H. Qed.

(** X9. The recipients of a zone are processed in one [try] block: when
    the step of the first of them throws (say, the producer has no
    channel), [processBirthdaysForTimezone] logs the error and returns,
    and the world is the one that step left; the recipients after it are
    not processed in that run: no lock, no record, no queue entry for
    them. *)
Theorem zone_scan_stops_at_first_throw
    (w : World) (timezone_ : string) (u : User) (rest : list User) (e : Error) :
  birthdayUsers timezone_ w = u :: rest ->
  outcome (createAndQueueBirthdayMessage u timezone_ w) = Throw e ->
  processBirthdaysForTimezone timezone_ w
  = (Ok tt, after (createAndQueueBirthdayMessage u timezone_ w)).
Proof.
  intros Husers Hthrow. rewrite processBirthdaysForTimezone_unfold, Husers.
  unfold try_catch.
  destruct (createAndQueueBirthdayMessage u timezone_ w) as [r w1] eqn:Hstep.
  cbn in Hthrow. subst r.
  rewrite (forEach_throws u rest _ w w1 e Hstep). reflexivity.
Qed.

Lemma zone_scan_stops_at_first_throw_witness :
  birthdayUsers "Pacific/Kiritimati" disconnectedWorld = [alice]
  /\ outcome (createAndQueueBirthdayMessage alice "Pacific/Kiritimati" disconnectedWorld)
     = Throw (newError "RabbitMQ channel not initialized")
  /\ processBirthdaysForTimezone "Pacific/Kiritimati" disconnectedWorld
     = (Ok tt, after (createAndQueueBirthdayMessage alice "Pacific/Kiritimati"
                        disconnectedWorld)).
Proof.
  split; [reflexivity | split; [reflexivity|]].
  exact (zone_scan_stops_at_first_throw disconnectedWorld "Pacific/Kiritimati" alice []
           (newError "RabbitMQ channel not initialized") eq_refl eq_refl).
Defined.

Lemma createBirthdayMessage_existing
    (w : World) (u : User) (scheduledFor_ : Z) (existing : BirthdayMessage) :
  others w = [] ->
  List.find (same_user_year (usrId u) (getFullYear (serverUtcOffset w) scheduledFor_))
    (birthday_messages w) = Some existing ->
  createBirthdayMessage u scheduledFor_ w
  = (Ok None,
     log_event
       (DbFindByUserYear (usrId u) (getFullYear (serverUtcOffset w) scheduledFor_)) w).
Proof.
  intros Hq Hsome. unfold createBirthdayMessage, bind, get_world, try_catch.
  rewrite repo_findOne_user_year_quiet by exact Hq. rewrite Hsome. reflexivity.
Qed.

(** X10. A scan does not queue a record that exists already: when the
    per-recipient lock is free and a record for the recipient and the
    year is in the ledger, whatever its status, the step makes the
    existence check and nothing else: no insert, no update, no publish.
    A record left [pending] by a publish that threw is therefore not
    queued by a later scan. *)
Theorem scan_does_not_requeue_existing
    (w : World) (u : User) (timezone_ : string) (existing : BirthdayMessage) :
  others w = [] ->
  redis_exists ("lock:" +:+ userLockKey u w) w = false ->
  List.find
    (same_user_year (usrId u) (getFullYear (serverUtcOffset w) (nineLocal timezone_ w)))
    (birthday_messages w) = Some existing ->
  let w' := after (createAndQueueBirthdayMessage u timezone_ w) in
  outcome (createAndQueueBirthdayMessage u timezone_ w) = Ok tt
  /\ birthday_messages w' = birthday_messages w
  /\ birthdayQueue w' = birthdayQueue w
  /\ trace w'
     = DbFindByUserYear (usrId u)
         (getFullYear (serverUtcOffset w) (nineLocal timezone_ w)) :: trace w.
Proof.
  intros Hq Hfree Hsome w'. subst w'. unfold createAndQueueBirthdayMessage.
  rewrite (bind_get_world (B:=unit)).
  rewrite (bind_ok _ _ _ _ _ (acquireLock_free _ 300 w Hfree)). cbn [negb].
  unfold try_finally. rewrite (bind_get_world (B:=unit)).
  match goal with
  | |- context [bind (createBirthdayMessage u ?sf) ?k ?w1] =>
      change sf with (nineLocal timezone_ w);
      rewrite (bind_ok _ k _ _ _
                 (createBirthdayMessage_existing w1 u (nineLocal timezone_ w) existing
                    Hq Hsome))
  end.
  cbn. repeat split; reflexivity.
Qed.

Lemma scan_does_not_requeue_existing_witness :
  others queuedWorld = []
  /\ redis_exists ("lock:" +:+ userLockKey alice queuedWorld) queuedWorld = false
  /\ birthday_messages
       (after (createAndQueueBirthdayMessage alice "Pacific/Kiritimati" queuedWorld))
     = birthday_messages queuedWorld.
Proof.
  split; [reflexivity | split; [reflexivity|]].
  exact (proj1 (proj2 (scan_does_not_requeue_existing queuedWorld alice
                         "Pacific/Kiritimati" queuedRow eq_refl eq_refl eq_refl))).
Defined.

(* ===================================================================== *)
(** ** Further properties: the pending half of the reconciler *)
(* ===================================================================== *)

Lemma recoverOne_ready (m : Loaded) (w : World) (c : Z) :
  ready c w ->
  exists w',
    recoverOne m w = (Ok tt, w')
    /\ ready c w'
    /\ (exists added, trace w' = added ++ trace w)
    /\ (forall u, user m = Some u -> trace w' = recoverCalls m u ++ trace w)
    /\ (user m = None -> w' = w)
    /\ (forall mid,
          List.find (has_id mid) (birthday_messages w')
          = option_map (fun r => if processed mid [m] then requeuedAt c r else r)
              (List.find (has_id mid) (birthday_messages w))).
Proof.
  intros [Hq [Hch Hc]]. unfold recoverOne, processed. cbn [existsb].
  destruct (user m) as [u|] eqn:Hu.
  - unfold try_catch, markAsQueued, publishBirthdayMessage.
    unfold bind at 1. rewrite (bind_get_world (B:=unit)).
    rewrite Hch. cbn [negb]. unfold modify.
    rewrite repo_update_quiet by still_quiet.
    eexists. split; [reflexivity|]. split; [|split; [|split; [|split]]].
    + repeat split; cbn; assumption.
    + exists (recoverCalls m u). reflexivity.
    + intros u' Hu'. injection Hu' as <-. reflexivity.
    + discriminate.
    + intros mid. cbn [birthday_messages log_event set_messages set_queue clock].
      rewrite Hc, andb_true_r, orb_false_r.
      destruct (has_id mid (row m)) eqn:Hid; unfold has_id in Hid.
      * apply String.eqb_eq in Hid. subst mid.
        rewrite !find_patch_rows by reflexivity.
        destruct (List.find _ _); reflexivity.
      * apply String.eqb_neq in Hid.
        rewrite !find_patch_rows_other by (try reflexivity; exact Hid).
        destruct (List.find _ _); reflexivity.
  - exists w. split; [reflexivity|]. split; [repeat split; assumption|].
    split; [exists []; reflexivity|]. split; [intros u Hu'; discriminate Hu'|].
    split; [reflexivity|].
    intros mid. rewrite andb_false_r. cbn.
    destruct (List.find _ _); reflexivity.
Qed.

Lemma forEach_recoverOne_ready (ms : list Loaded) :
  forall (w : World) (c : Z),
    ready c w ->
    exists w',
      forEach ms recoverOne w = (Ok tt, w')
      /\ ready c w'
      /\ (exists added, trace w' = added ++ trace w)
      /\ (forall m u, In m ms -> user m = Some u ->
            exists later before, trace w' = later ++ recoverCalls m u ++ before)
      /\ (forall mid,
            List.find (has_id mid) (birthday_messages w')
            = option_map (fun r => if processed mid ms then requeuedAt c r else r)
                (List.find (has_id mid) (birthday_messages w))).
Proof.
  induction ms as [|x rest IH]; intros w c Hready.
  - exists w. split; [reflexivity|]. split; [exact Hready|].
    split; [exists []; reflexivity|]. split; [intros m u []|].
    intros mid. cbn. destruct (List.find _ _); reflexivity.
  - destruct (recoverOne_ready x w c Hready)
      as [w1 [Hrun1 [Hready1 [[added1 Hgrow1] [Hcalls1 [_ Hrows1]]]]]].
    destruct (IH w1 c Hready1)
      as [w' [Hrun [Hready' [[added Hgrow] [Hcalls Hrows]]]]].
    exists w'. split; [|split; [exact Hready'|split; [|split]]].
    + cbn [forEach]. rewrite (bind_ok _ _ _ _ _ Hrun1). exact Hrun.
    + exists (added ++ added1). rewrite Hgrow, Hgrow1. apply app_assoc.
    + intros m u [-> | Hin] Hu.
      * exists added, (trace w). rewrite Hgrow, (Hcalls1 u Hu). reflexivity.
      * exact (Hcalls m u Hin Hu).
    + intros mid. rewrite Hrows, Hrows1.
      unfold processed. cbn [existsb]. rewrite orb_false_r.
      destruct (List.find (has_id mid) (birthday_messages w)) as [r|]; [|reflexivity].
      cbn [option_map].
      destruct (has_id mid (row x) && _)%bool; destruct (existsb _ rest);
        reflexivity.
Qed.

Lemma pendingBatch_quiet (w : World) :
  others w = [] ->
  getPendingMessagesToQueue w = (Ok (pendingBatch w), log_event DbQueryPending w).
Proof.
  intros Hq. unfold getPendingMessagesToQueue, repo_query_pending, bind.
  rewrite interleave_quiet by exact Hq. reflexivity.
Qed.

(** What a run of [recoverPendingMessages] does to the row found under an
    id, and which calls it makes for a record of its batch. *)
Lemma recoverPendingMessages_rows (w : World) :
  others w = [] ->
  producerChannel w = true ->
  exists w',
    recoverPendingMessages w = (Ok tt, w')
    /\ ready (clock w) w'
    /\ (forall m u, In m (pendingBatch w) -> user m = Some u ->
          exists later before, trace w' = later ++ recoverCalls m u ++ before)
    /\ (forall mid,
          List.find (has_id mid) (birthday_messages w')
          = option_map
              (fun r => if processed mid (pendingBatch w)
                        then requeuedAt (clock w) r else r)
              (List.find (has_id mid) (birthday_messages w))).
Proof.
  intros Hq Hch.
  assert (Hready : ready (clock w) (log_event DbQueryPending w))
    by (repeat split; cbn; assumption).
  destruct (forEach_recoverOne_ready (pendingBatch w) _ _ Hready)
    as [wf [Hrun [Hreadyf [_ [Hcalls Hrows]]]]].
  unfold recoverPendingMessages. rewrite (bind_ok _ _ _ _ _ (pendingBatch_quiet w Hq)).
  destruct (pendingBatch w) as [|m0 rest] eqn:Hbatch.
  - exists (log_event DbQueryPending w). split; [reflexivity|].
    split; [exact Hready|]. split; [intros m u []|].
    intros mid. cbn. destruct (List.find _ _); reflexivity.
  - exists wf. split; [exact Hrun|]. split; [exact Hreadyf|].
    split; [exact Hcalls | exact Hrows].
Qed.

Lemma pendingBatch_In (w : World) (r : BirthdayMessage) :
  In r (birthday_messages w) ->
  status r = PENDING ->
  scheduledFor r <= clock w ->
  In (join_user w r) (pendingBatch w).
Proof.
  intros Hin Hst Hdue. unfold pendingBatch. apply in_map. apply filter_In.
  split; [exact Hin|]. rewrite Hst. cbn. apply Z.leb_le. exact Hdue.
Qed.

(** X11. For every record that is [pending] with its scheduled-for
    instant reached and whose recipient resolves, when the producer has
    its channel and nobody else writes: a run of [recoverPendingMessages]
    publishes its queue entry and then marks it [queued], and the record
    ends [queued] with every other column but [updatedAt] as it was. The
    published entry carries the record's id and recipient id and the
    recipient's e-mail and full name. *)
Theorem recoverPendingMessages_queues_due_record
    (w : World) (r : BirthdayMessage) (u : User) :
  others w = [] ->
  producerChannel w = true ->
  List.find (has_id (msgId r)) (birthday_messages w) = Some r ->
  status r = PENDING ->
  scheduledFor r <= clock w ->
  user (join_user w r) = Some u ->
  let w' := after (recoverPendingMessages w) in
  outcome (recoverPendingMessages w) = Ok tt
  /\ (exists later before,
        trace w'
        = later
          ++ [DbUpdateStatus (msgId r) QUEUED;
              QueuePublish
                (mkPayload (msgId r) (userId r) (email u)
                   (firstName u +:+ " " +:+ lastName u))]
          ++ before)
  /\ List.find (has_id (msgId r)) (birthday_messages w')
     = Some (mkBirthdayMessage (msgId r) (userId r) (year r) QUEUED (messageType r)
               (scheduledFor r) (sentAt r) (attempts r) (lastError r)
               (createdAt r) (clock w)).
Proof.
  intros Hq Hch Hfind Hst Hdue Hu w'.
  destruct (recoverPendingMessages_rows w Hq Hch) as [wf [Hrun [_ [Hcalls Hrows]]]].
  assert (Hin : In (join_user w r) (pendingBatch w)).
  { apply pendingBatch_In; try assumption.
    apply List.find_some in Hfind. exact (proj1 Hfind). }
  subst w'. rewrite Hrun. cbn [outcome after fst snd].
  split; [reflexivity | split].
  - exact (Hcalls (join_user w r) u Hin Hu).
  - rewrite Hrows, Hfind.
    rewrite (processed_In (msgId r) _ (join_user w r) u Hin Hu eq_refl). reflexivity.
Qed.

Lemma find_app_none {A : Type} (p : A -> bool) (l l' : list A) :
  List.find p l = None -> List.find p (l ++ l') = List.find p l'.
Proof.
  induction l as [|x rest IH]; cbn; [reflexivity|].
  destruct (p x); [discriminate | exact IH].
Qed.

(** The per-recipient step when the record is new and the producer has no
    channel: the record is inserted, and the publish throws. *)
Lemma createAndQueue_publish_throws (w : World) (u : User) (timezone_ : string) :
  others w = [] ->
  redis_exists ("lock:" +:+ userLockKey u w) w = false ->
  List.find
    (same_user_year (usrId u) (getFullYear (serverUtcOffset w) (nineLocal timezone_ w)))
    (birthday_messages w) = None ->
  producerChannel w = false ->
  createAndQueueBirthdayMessage u timezone_ w
  = (Throw (newError "RabbitMQ channel not initialized"),
     log_event (DbInsert (new_row w u (nineLocal timezone_ w)))
       (set_uuids (tl (uuids w))
          (set_messages (birthday_messages w ++ [new_row w u (nineLocal timezone_ w)])
             (log_event
                (DbFindByUserYear (usrId u)
                   (getFullYear (serverUtcOffset w) (nineLocal timezone_ w)))
                (set_redis
                   (<["lock:" +:+ userLockKey u w := clock w + 300 * 1000]> (redis w))
                   w))))).
Proof.
  intros Hq Hfree Hnone Hch. unfold createAndQueueBirthdayMessage.
  rewrite (bind_get_world (B:=unit)).
  rewrite (bind_ok _ _ _ _ _ (acquireLock_free _ 300 w Hfree)). cbn [negb].
  unfold try_finally. rewrite (bind_get_world (B:=unit)).
  match goal with
  | |- context [bind (createBirthdayMessage u ?sf) ?k ?w1] =>
      change sf with (nineLocal timezone_ w);
      rewrite (bind_ok _ k _ _ _
                 (createBirthdayMessage_fresh w1 u (nineLocal timezone_ w) Hq Hnone))
  end.
  unfold publishBirthdayMessage. unfold bind at 1. rewrite (bind_get_world (B:=unit)).
  cbn [producerChannel log_event set_uuids set_messages set_redis].
  rewrite Hch. reflexivity.
Qed.

(** X12. A record whose publish threw is repaired by the reconciler, not
    by the scanner. When the producer has no channel, the per-recipient
    step inserts the record, throws at the publish and leaves the record
    [pending] with nothing in the queue; once the channel is back, a run
    of [recoverPendingMessages] publishes the entry and marks the record
    [queued], given that it is 09:00 or later in the recipient's zone
    (the scheduled-for instant is reached) and the recipient is in the
    users table. The per-recipient lock, still held, does not stand in
    the way: the reconciler does not take it. *)
Theorem publish_failure_is_repaired_by_recovery
    (w : World) (u : User) (timezone_ : string) :
  others w = [] ->
  redis_exists ("lock:" +:+ userLockKey u w) w = false ->
  List.find
    (same_user_year (usrId u) (getFullYear (serverUtcOffset w) (nineLocal timezone_ w)))
    (birthday_messages w) = None ->
  producerChannel w = false ->
  List.find (has_id (hd ""%string (uuids w))) (birthday_messages w) = None ->
  nineLocal timezone_ w <= clock w ->
  List.find (fun u' => String.eqb (usrId u') (usrId u)) (usersTable w) = Some u ->
  let r := new_row w u (nineLocal timezone_ w) in
  let w1 := after (createAndQueueBirthdayMessage u timezone_ w) in
  let w2 := after (recoverPendingMessages (reconnect w1)) in
  outcome (createAndQueueBirthdayMessage u timezone_ w)
  = Throw (newError "RabbitMQ channel not initialized")
  /\ List.find (has_id (msgId r)) (birthday_messages w1) = Some r
  /\ status r = PENDING
  /\ birthdayQueue w1 = birthdayQueue w
  /\ redis_exists ("lock:" +:+ userLockKey u w) (reconnect w1) = true
  /\ List.find (has_id (msgId r)) (birthday_messages w2)
     = Some (set_updatedAt (clock w) (set_status QUEUED r))
  /\ exists later before,
       trace w2
       = later
         ++ [DbUpdateStatus (msgId r) QUEUED;
             QueuePublish (payloadFor (msgId r) (usrId u) u)]
         ++ before.
Proof.
  intros Hq Hfree Hnone Hch Hfresh Hdue Huser r w1 w2.
  assert (Hw1 := createAndQueue_publish_throws w u timezone_ Hq Hfree Hnone Hch).
  fold r in Hw1.
  assert (Hfind1 : List.find (has_id (msgId r)) (birthday_messages w1) = Some r).
  { subst w1. rewrite Hw1. cbn [after snd birthday_messages log_event set_uuids set_messages].
    rewrite find_app_none by exact Hfresh. cbn.
    unfold has_id. cbn. now rewrite String.eqb_refl. }
  assert (Hheld : redis_exists ("lock:" +:+ userLockKey u w) (reconnect w1) = true).
  { subst w1. rewrite Hw1. unfold redis_exists. cbn. rewrite lookup_insert_eq.
    apply Z.ltb_lt. lia. }
  assert (Hq1 : others (reconnect w1) = []) by (subst w1; rewrite Hw1; exact Hq).
  assert (Hclock : clock (reconnect w1) = clock w) by (subst w1; now rewrite Hw1).
  destruct (recoverPendingMessages_rows (reconnect w1) Hq1 eq_refl)
    as [wf [Hrun [_ [Hcalls Hrows]]]].
  assert (Hin : In (join_user (reconnect w1) r) (pendingBatch (reconnect w1))).
  { apply pendingBatch_In.
    - apply List.find_some in Hfind1. exact (proj1 Hfind1).
    - reflexivity.
    - rewrite Hclock. exact Hdue. }
  assert (Hu : user (join_user (reconnect w1) r) = Some u).
  { subst w1. rewrite Hw1. exact Huser. }
  split; [now rewrite Hw1 | split; [exact Hfind1 | split; [reflexivity|]]].
  split; [subst w1; now rewrite Hw1 | split; [exact Hheld|]].
  subst w2. rewrite Hrun. cbn [after snd]. split.
  - rewrite Hrows. change (birthday_messages (reconnect w1)) with (birthday_messages w1).
    rewrite Hfind1.
    rewrite (processed_In (msgId r) _ _ u Hin Hu eq_refl).
    cbn [option_map]. unfold requeuedAt. now rewrite Hclock.
  - exact (Hcalls _ u Hin Hu).
Qed.

Lemma publish_failure_is_repaired_by_recovery_witness :
  others disconnectedWorld = []
  /\ producerChannel disconnectedWorld = false
  /\ nineLocal "Pacific/Kiritimati" disconnectedWorld <= clock disconnectedWorld
  /\ outcome (createAndQueueBirthdayMessage alice "Pacific/Kiritimati" disconnectedWorld)
     = Throw (newError "RabbitMQ channel not initialized").
Proof.
  assert (Hdue : nineLocal "Pacific/Kiritimati" disconnectedWorld
                 <= clock disconnectedWorld) by (vm_compute; discriminate).
  split; [reflexivity | split; [reflexivity | split; [exact Hdue|]]].
  exact (proj1 (publish_failure_is_repaired_by_recovery disconnectedWorld alice
                  "Pacific/Kiritimati" eq_refl eq_refl eq_refl eq_refl eq_refl Hdue
                  eq_refl)).
Defined.

Lemma recoverPendingMessages_queues_due_record_witness :
  let w := set_messages [set_status PENDING queuedRow] newYearWorld in
  others w = []
  /\ producerChannel w = true
  /\ scheduledFor (set_status PENDING queuedRow) <= clock w
  /\ outcome (recoverPendingMessages w) = Ok tt.
Proof.
  cbn zeta.
  assert (Hdue : scheduledFor (set_status PENDING queuedRow)
                 <= clock (set_messages [set_status PENDING queuedRow] newYearWorld))
    by (vm_compute; discriminate).
  split; [reflexivity | split; [reflexivity | split; [exact Hdue|]]].
  exact (proj1 (recoverPendingMessages_queues_due_record
                  (set_messages [set_status PENDING queuedRow] newYearWorld)
                  (set_status PENDING queuedRow) alice
                  eq_refl eq_refl eq_refl eq_refl Hdue eq_refl)).
Defined.

(* ===================================================================== *)
(** ** Further properties: which keys a scan writes *)
(* ===================================================================== *)

(** X13. A scan writes per-recipient keys and its own lock, and no other
    key of Redis: the processing of a zone leaves every key that is not a
    per-recipient key as it was (the scanner lock included, which thus
    stays in place while the zones are processed), and a whole run of
    [checkBirthdays] leaves every key that is neither a per-recipient key
    nor the scanner lock as it was, processing locks and the recovery
    lock among them. *)
Theorem scan_writes_only_its_own_keys
    (w : World) (timezone_ : string) (isTestMode : bool) (k : string) :
  (forall s, k <> "lock:birthday-user-" +:+ s) ->
  redis (after (processBirthdaysForTimezone timezone_ w)) !! k = redis w !! k
  /\ (k <> schedulerLockKey ->
      redis (after (checkBirthdays isTestMode w)) !! k = redis w !! k).
Proof.
  intros Hk. split; [apply (processBirthdaysForTimezone_leaves_other_keys k _ Hk w)|].
  intros Hne. unfold checkBirthdays.
  destruct (redis_exists ("lock:" +:+ "birthday-scheduler-lock") w) eqn:Hlock.
  - rewrite (bind_ok _ _ _ _ _ (acquireLock_held _ 55 w Hlock)). reflexivity.
  - rewrite (bind_ok _ _ _ _ _ (acquireLock_free _ 55 w Hlock)). cbn [negb].
    rewrite try_finally_release. cbn [after snd redis set_redis].
    rewrite lookup_delete_ne by (intros E; apply Hne; now rewrite <- E).
    match goal with
    | |- redis (after (?body ?w1)) !! k = _ =>
        assert (Hb : always (leaves_key k) body)
    end.
    { apply always_try_catch; try apply leaves_key_trans.
      - apply always_bind; try apply leaves_key_trans.
        + apply always_get_world, leaves_key_refl.
        + intros w0. destruct (getTimezonesAtTime _ _ _ w0).
          * apply always_ret, leaves_key_refl.
          * apply always_forEach;
              [apply leaves_key_refl | apply leaves_key_trans |].
            intros tz. apply processBirthdaysForTimezone_leaves_other_keys, Hk.
      - intros e. apply always_ret, leaves_key_refl. }
    rewrite (Hb _). cbn [redis set_redis].
    apply lookup_insert_ne. intros E. apply Hne. now rewrite <- E.
Qed.

Lemma scan_writes_only_its_own_keys_witness :
  redis (after (checkBirthdays false heldWorld)) !! processLockKey entry1
  = redis heldWorld !! processLockKey entry1.
Proof.
  assert (Hk : forall s, processLockKey entry1 <> "lock:birthday-user-" +:+ s)
    by (intros s; cbn; discriminate).
  assert (Hne : processLockKey entry1 <> schedulerLockKey) by (cbn; discriminate).
  exact (proj2 (scan_writes_only_its_own_keys heldWorld "Etc/UTC" false
                  (processLockKey entry1) Hk) Hne).
Defined.

(* ===================================================================== *)
(** ** Further properties: the failure handler at its edges *)
(* ===================================================================== *)

(** X14. When the attempt count that [handleFailure] reads has reached
    the ceiling, the entry is settled and dead-lettered and no timer is
    set; the failure is still recorded first, so the record of a
    dead-lettered entry shows one attempt more than was read: at least
    the ceiling plus one. *)
Theorem handleFailure_dead_letters_at_ceiling
    (w : World) (msg payload : BirthdayMessagePayload) (error : Error)
    (r : BirthdayMessage) :
  others w = [] ->
  List.find (has_id (messageId payload)) (birthday_messages w) = Some r ->
  MAX_RETRY_ATTEMPTS <= attempts r ->
  let w' := after (handleFailure msg payload error w) in
  birthdayDlq w' = birthdayDlq w ++ [msg]
  /\ inFlight w' = settle msg (inFlight w)
  /\ timers w' = timers w
  /\ birthdayQueue w' = birthdayQueue w
  /\ List.find (has_id (messageId payload)) (birthday_messages w')
     = Some (mkBirthdayMessage (msgId r) (userId r) (year r) FAILED (messageType r)
               (scheduledFor r) (sentAt r) (attempts r + 1) (Some (message error))
               (createdAt r) (clock w))
  /\ MAX_RETRY_ATTEMPTS < attempts r + 1.
Proof.
  intros Hq Hr Hmax w'. subst w'. rewrite handleFailure_quiet by exact Hq. cbv zeta.
  assert (Ha : attemptsRead payload w = attempts r)
    by (unfold attemptsRead; now rewrite Hr).
  rewrite Ha.
  assert (Hle : (MAX_RETRY_ATTEMPTS <=? attempts r) = true) by (apply Z.leb_le; lia).
  rewrite Hle. cbn [after snd birthdayDlq inFlight timers birthdayQueue
                    birthday_messages set_dlq set_inFlight].
  assert (Hrow := markAsFailed_row (log_event (DbFindById (messageId payload)) w)
                    (messageId payload) (message error) r Hq Hr).
  rewrite markAsFailed_quiet in * by still_quiet.
  repeat split; try reflexivity; [exact Hrow | lia].
Qed.

Lemma handleFailure_dead_letters_at_ceiling_witness :
  let w := set_messages [failedRow "m1" "u1" 2024 5 1000] newYearWorld in
  others w = []
  /\ MAX_RETRY_ATTEMPTS <= attempts (failedRow "m1" "u1" 2024 5 1000)
  /\ birthdayDlq (after (handleFailure entry1 entry1 http500 w)) = [entry1].
Proof.
  cbn zeta.
  assert (Hmax : MAX_RETRY_ATTEMPTS <= attempts (failedRow "m1" "u1" 2024 5 1000))
    by (vm_compute; discriminate).
  split; [reflexivity | split; [exact Hmax|]].
  exact (proj1 (handleFailure_dead_letters_at_ceiling
                  (set_messages [failedRow "m1" "u1" 2024 5 1000] newYearWorld)
                  entry1 entry1 http500 (failedRow "m1" "u1" 2024 5 1000)
                  eq_refl eq_refl Hmax)).
Defined.

Lemma patch_rows_absent (mid : string) (now : Z)
    (f : BirthdayMessage -> BirthdayMessage) (l : list BirthdayMessage) :
  List.find (has_id mid) l = None -> patch_rows mid now f l = l.
Proof.
  unfold patch_rows. induction l as [|x rest IH]; cbn [List.find map]; [reflexivity|].
  destruct (has_id mid x); [discriminate|]. intros H. now rewrite (IH H).
Qed.

(** X15. For an entry whose record is not in the ledger, [handleFailure]
    reads the attempt count as 0: it writes nothing to the table (the
    two updates of [markAsFailed] match no row), sets a timer of one
    second and never dead-letters; as the count it will read next time is
    0 again, such an entry is requeued every second for as long as its
    processing fails. *)
Theorem handleFailure_missing_record_requeues
    (w : World) (msg payload : BirthdayMessagePayload) (error : Error) :
  others w = [] ->
  List.find (has_id (messageId payload)) (birthday_messages w) = None ->
  let w' := after (handleFailure msg payload error w) in
  birthday_messages w' = birthday_messages w
  /\ timers w' = timers w ++ [(clock w + 1000, msg)]
  /\ birthdayDlq w' = birthdayDlq w
  /\ attemptsRead payload w' = 0.
Proof.
  intros Hq Hnone w'. subst w'. rewrite handleFailure_quiet by exact Hq. cbv zeta.
  assert (Ha : attemptsRead payload w = 0)
    by (unfold attemptsRead; now rewrite Hnone).
  rewrite Ha. cbn [Z.leb MAX_RETRY_ATTEMPTS Z.compare].
  rewrite markAsFailed_quiet by still_quiet.
  cbn [after snd birthday_messages timers birthdayDlq clock log_event set_messages
       set_timers].
  assert (Hsame : patch_rows (messageId payload) (clock w)
                    (fun r => set_status FAILED (set_lastError (Some (message error)) r))
                    (patch_rows (messageId payload) (clock w)
                       (fun r => set_attempts (attempts r + 1) r)
                       (birthday_messages w))
                  = birthday_messages w).
  { rewrite (patch_rows_absent _ _ _ (birthday_messages w)) by exact Hnone.
    apply patch_rows_absent. exact Hnone. }
  unfold attemptsRead.
  cbn [birthday_messages set_timers log_event set_messages].
  rewrite Hsame, Hnone. repeat split; reflexivity.
Qed.

Lemma handleFailure_missing_record_requeues_witness :
  others newYearWorld = []
  /\ timers (after (handleFailure entry1 entry1 http500 newYearWorld))
     = [(clock newYearWorld + 1000, entry1)].
Proof.
  split; [reflexivity|].
  exact (proj1 (proj2 (handleFailure_missing_record_requeues newYearWorld entry1 entry1
                         http500 eq_refl eq_refl))).
Defined.

(* ===================================================================== *)
(** ** Further properties: batch publishing *)
(* ===================================================================== *)

Lemma publishBatch_connected (payloads : list BirthdayMessagePayload) :
  forall w,
    producerChannel w = true ->
    exists w',
      publishBatch payloads w = (Ok tt, w')
      /\ producerChannel w' = true
      /\ birthdayQueue w' = birthdayQueue w ++ payloads
      /\ trace w' = rev (map QueuePublish payloads) ++ trace w
      /\ birthday_messages w' = birthday_messages w.
Proof.
  unfold publishBatch.
  induction payloads as [|p rest IH]; intros w Hch.
  - exists w. cbn. rewrite app_nil_r. repeat split; try reflexivity. exact Hch.
  - cbn [forEach]. unfold publishBirthdayMessage at 1.
    unfold bind at 1. rewrite (bind_get_world (B:=unit)). rewrite Hch. cbn [negb modify].
    match goal with
    | |- context [forEach rest publishBirthdayMessage ?w1] =>
        destruct (IH w1 Hch) as [w' [Hrun [Hch' [Hqueue [Htrace Hmsgs]]]]]
    end.
    exists w'. split; [exact Hrun|]. split; [exact Hch'|].
    split; [rewrite Hqueue; cbn; now rewrite <- app_assoc|].
    split; [rewrite Htrace; cbn; now rewrite <- app_assoc | exact Hmsgs].
Qed.

(** X16. [publishBatch] publishes its payloads one after the other: with
    the channel open they all reach the queue, behind what was there and
    in the order given; with no channel a batch that is not empty throws
    at its first payload and publishes nothing, while the empty batch
    returns normally, channel or not. *)
Theorem publishBatch_in_order_or_nothing
    (w : World) (payloads : list BirthdayMessagePayload) :
  (producerChannel w = true ->
   outcome (publishBatch payloads w) = Ok tt
   /\ birthdayQueue (after (publishBatch payloads w)) = birthdayQueue w ++ payloads
   /\ trace (after (publishBatch payloads w))
      = rev (map QueuePublish payloads) ++ trace w)
  /\ (producerChannel w = false -> payloads <> [] ->
      publishBatch payloads w = (Throw (newError "RabbitMQ channel not initialized"), w))
  /\ publishBatch [] w = (Ok tt, w).
Proof.
  split; [|split; [|reflexivity]].
  - intros Hch.
    destruct (publishBatch_connected payloads w Hch) as [w' [Hrun [_ [Hq [Ht _]]]]].
    rewrite Hrun. repeat split; assumption.
  - intros Hch Hne. destruct payloads as [|p rest]; [congruence|].
    unfold publishBatch. apply forEach_throws.
    unfold publishBirthdayMessage. rewrite (bind_get_world (B:=unit)).
    now rewrite Hch.
Qed.

Lemma publishBatch_in_order_or_nothing_witness :
  producerChannel queuedWorld = true
  /\ birthdayQueue (after (publishBatch [entry1; entry1] queuedWorld))
     = [entry1; entry1; entry1].
Proof.
  split; [reflexivity|].
  exact (proj1 (proj2 (proj1 (publishBatch_in_order_or_nothing queuedWorld
                                [entry1; entry1]) eq_refl))).
Defined.

(* ===================================================================== *)
(** ** Further properties: the unsent query *)
(* ===================================================================== *)

Lemma insert_by_scheduledFor_perm (r : BirthdayMessage) (rows : list BirthdayMessage) :
  Permutation (insert_by_scheduledFor r rows) (r :: rows).
Proof.
  induction rows as [|x rest IH]; cbn; [apply Permutation_refl|].
  destruct (scheduledFor r <? scheduledFor x); [apply Permutation_refl|].
  eapply Permutation_trans; [apply perm_skip, IH | apply perm_swap].
Qed.

Lemma order_by_scheduledFor_perm (rows : list BirthdayMessage) :
  Permutation (order_by_scheduledFor rows) rows.
Proof.
  induction rows as [|x rest IH]; cbn; [apply Permutation_refl|].
  eapply Permutation_trans; [apply insert_by_scheduledFor_perm | apply perm_skip, IH].
Qed.

Lemma insert_by_scheduledFor_sorted (r : BirthdayMessage) (rows : list BirthdayMessage) :
  StronglySorted (fun a b => scheduledFor a <= scheduledFor b) rows ->
  StronglySorted (fun a b => scheduledFor a <= scheduledFor b)
    (insert_by_scheduledFor r rows).
Proof.
  induction 1 as [|x rest Hsorted IH Hall]; cbn.
  - constructor; constructor.
  - destruct (scheduledFor r <? scheduledFor x) eqn:Hlt.
    + apply Z.ltb_lt in Hlt. constructor; [constructor; assumption|].
      constructor; [lia|].
      eapply List.Forall_impl; [|exact Hall]. cbn. intros a Ha. lia.
    + apply Z.ltb_ge in Hlt. constructor; [exact IH|].
      apply List.Forall_forall. intros a Ha.
      apply (Permutation_in _ (insert_by_scheduledFor_perm r rest)) in Ha.
      destruct Ha as [<- | Ha]; [exact Hlt|].
      exact (proj1 (List.Forall_forall _ _) Hall a Ha).
Qed.

Lemma order_by_scheduledFor_sorted (rows : list BirthdayMessage) :
  StronglySorted (fun a b => scheduledFor a <= scheduledFor b)
    (order_by_scheduledFor rows).
Proof.
  induction rows as [|x rest IH]; cbn; [constructor|].
  apply insert_by_scheduledFor_sorted. exact IH.
Qed.

Lemma StronglySorted_firstn {A : Type} (R : A -> A -> Prop) (n : nat) (l : list A) :
  StronglySorted R l -> StronglySorted R (firstn n l).
Proof.
  intros H. revert n. induction H as [|x rest Hsorted IH Hall]; intros [|n]; cbn;
    try constructor.
  - apply IH.
  - apply List.Forall_forall. intros a Ha. apply In_firstn in Ha.
    exact (proj1 (List.Forall_forall _ _) Hall a Ha).
Qed.

(** X17. [getUnsentMessages], called with a positive [limit], returns,
    joined with their recipients and in ascending order of
    scheduled-for, at most [limit] records, each of
    which is either [failed] (whatever its attempt count) or [pending]
    with a scheduled-for instant equal to the instant of the call: the
    [where] clause compares [scheduledFor] with [now] for equality, so a
    [pending] record scheduled for any other instant, earlier ones
    included, is not returned. *)
Theorem getUnsentMessages_selects_failed_and_pending_at_now (w : World) (limit : nat) :
  (0 < limit)%nat ->
  exists batch,
    outcome (getUnsentMessages limit w) = Ok batch
    /\ (length batch <= limit)%nat
    /\ Forall (fun m => status (row m) = FAILED
                        \/ (status (row m) = PENDING /\ scheduledFor (row m) = clock w))
         batch
    /\ (forall m, In m batch -> status (row m) = PENDING ->
                  scheduledFor (row m) = clock w)
    /\ StronglySorted (fun a b => scheduledFor a <= scheduledFor b) (map row batch).
Proof.
  intros _. destruct (interleave_total w) as [w1 Hw1].
  unfold getUnsentMessages. rewrite (bind_get_world (B:=list Loaded)).
  unfold bind, outcome. rewrite Hw1. cbn [fst].
  eexists. split; [reflexivity|].
  set (candidates := List.filter _ (birthday_messages w1)).
  assert (Hsel : forall m,
             In m (map (join_user w1) (firstn limit (order_by_scheduledFor candidates))) ->
             status (row m) = FAILED
             \/ (status (row m) = PENDING /\ scheduledFor (row m) = clock w)).
  { intros m Hm. apply in_map_iff in Hm. destruct Hm as [r [<- Hr]].
    apply In_firstn in Hr.
    apply (Permutation_in _ (order_by_scheduledFor_perm _)) in Hr.
    subst candidates. apply filter_In in Hr. destruct Hr as [_ Hp]. cbn [row join_user].
    apply orb_true_iff in Hp. destruct Hp as [Hp | Hp].
    - apply andb_true_iff in Hp. destruct Hp as [Hst Hat]. right.
      apply Z.eqb_eq in Hat. split; [|exact Hat].
      destruct (status r); try discriminate Hst; reflexivity.
    - left. destruct (status r); try discriminate Hp; reflexivity. }
  split; [rewrite length_map; apply firstn_le_length|].
  split; [apply List.Forall_forall; exact Hsel|]. split.
  - intros m Hm Hst. destruct (Hsel m Hm) as [Hf | [_ Hat]]; [congruence | exact Hat].
  - rewrite List.map_map. cbn [row join_user]. rewrite List.map_id.
    apply StronglySorted_firstn, order_by_scheduledFor_sorted.
Qed.

Lemma getUnsentMessages_selects_failed_and_pending_at_now_witness :
  (0 < 100)%nat
  /\ exists batch,
       outcome (getUnsentMessages 100 retryWorld) = Ok batch
       /\ (length batch <= 100)%nat.
Proof.
  assert (Hlimit : (0 < 100)%nat) by lia.
  split; [exact Hlimit|].
  destruct (getUnsentMessages_selects_failed_and_pending_at_now retryWorld 100 Hlimit)
    as [batch [Hrun [Hlen _]]].
  exists batch. split; assumption.
Defined.

(* ===================================================================== *)
(** ** Further properties: the e-mail client *)
(* ===================================================================== *)



(* ===================================================================== *)
(** ** Further properties: the zones at the target time *)
(* ===================================================================== *)

Lemma NoDup_map_fst_filter {A B : Type} (p : A * B -> bool) (l : list (A * B)) :
  List.NoDup (map fst l) -> List.NoDup (map fst (List.filter p l)).
Proof.
  induction l as [|x rest IH]; cbn; [constructor|].
  intros H. inversion H as [|? ? Hnotin Hrest]; subst.
  destruct (p x); [|exact (IH Hrest)].
  cbn. constructor; [|exact (IH Hrest)].
  intros Hin. apply Hnotin. apply in_map_iff in Hin. destruct Hin as [y [Hy Hin]].
  apply filter_In in Hin. apply in_map_iff. exists y. tauto.
Qed.

(** X19. [getTimezonesAtTime] returns a zone exactly when the zone table
    knows it and its wall clock at the given instant shows the target
    hour and minute, and returns no zone twice. Two zones returned for
    the same instant have offsets that differ by a whole number of days:
    they show the same time of day, but not always the same date (UTC-10
    and UTC+14 do not), which is why the date is taken per zone. *)
Theorem zones_at_target_time
    (w : World) (utcMoment targetHour targetMinute : Z) :
  let zones := getTimezonesAtTime utcMoment targetHour targetMinute w in
  (forall tz,
      In tz zones
      <-> exists off,
            tzdata w !! tz = Some off
            /\ moment_get_hour (moment_at utcMoment off) = targetHour
            /\ moment_get_minute (moment_at utcMoment off) = targetMinute)
  /\ List.NoDup zones
  /\ (forall tz1 tz2 off1 off2,
        In tz1 zones -> In tz2 zones ->
        tzdata w !! tz1 = Some off1 -> tzdata w !! tz2 = Some off2 ->
        (off1 - off2) mod 1440 = 0).
Proof.
  intros zones.
  assert (Hin : forall tz,
             In tz zones
             <-> exists off,
                   tzdata w !! tz = Some off
                   /\ moment_get_hour (moment_at utcMoment off) = targetHour
                   /\ moment_get_minute (moment_at utcMoment off) = targetMinute).
  { intros tz. subst zones. unfold getTimezonesAtTime. split.
    - intros H. apply in_map_iff in H. destruct H as [[tz' off] [Heq H]].
      cbn in Heq. subst tz'. apply filter_In in H. destruct H as [Hz Hp].
      apply list_elem_of_In, elem_of_map_to_list in Hz.
      apply andb_true_iff in Hp. destruct Hp as [Hh Hm].
      apply Z.eqb_eq in Hh. apply Z.eqb_eq in Hm.
      exists off. repeat split; assumption.
    - intros [off [Hz [Hh Hm]]]. apply in_map_iff. exists (tz, off).
      split; [reflexivity|]. apply filter_In. split.
      + apply list_elem_of_In, elem_of_map_to_list. exact Hz.
      + cbn [snd]. rewrite Hh, Hm, !Z.eqb_refl. reflexivity. }
  split; [exact Hin | split].
  - subst zones. unfold getTimezonesAtTime. apply NoDup_map_fst_filter.
    apply NoDup_ListNoDup. apply NoDup_fst_map_to_list.
  - intros tz1 tz2 off1 off2 H1 H2 Hz1 Hz2.
    apply Hin in H1. apply Hin in H2.
    destruct H1 as [o1 [Ho1 [Hh1 Hm1]]]. destruct H2 as [o2 [Ho2 [Hh2 Hm2]]].
    rewrite Hz1 in Ho1. rewrite Hz2 in Ho2.
    injection Ho1 as <-. injection Ho2 as <-.
    unfold moment_get_hour, moment_get_minute, moment_at, MS_PER_DAY in *.
    cbn [wall] in *. subst targetHour targetMinute.
    Z.div_mod_to_equations. lia.
Qed.

Lemma zones_at_target_time_witness :
  In "Pacific/Kiritimati"%string
     (getTimezonesAtTime (clock newYearWorld) 9 0 newYearWorld).
Proof.
  destruct (zones_at_target_time newYearWorld (clock newYearWorld) 9 0) as [Hin _].
  apply (proj2 (Hin "Pacific/Kiritimati"%string)).
  exists 840. repeat split; vm_compute; reflexivity.
Defined.



(* ===================================================================== *)
(** ** Further properties: from the scan to the sent record *)
(* ===================================================================== *)

(** The per-recipient step when the record is new and the producer has
    its channel. *)
Lemma createAndQueue_creates (w : World) (u : User) (timezone_ : string) :
  others w = [] ->
  redis_exists ("lock:" +:+ userLockKey u w) w = false ->
  List.find
    (same_user_year (usrId u) (getFullYear (serverUtcOffset w) (nineLocal timezone_ w)))
    (birthday_messages w) = None ->
  producerChannel w = true ->
  let r := new_row w u (nineLocal timezone_ w) in
  let p := payloadFor (msgId r) (usrId u) u in
  createAndQueueBirthdayMessage u timezone_ w
  = (Ok tt,
     log_event (DbUpdateStatus (msgId r) QUEUED)
       (set_messages
          (patch_rows (msgId r) (clock w) (fun x => set_status QUEUED x)
             (birthday_messages w ++ [r]))
          (log_event (QueuePublish p)
             (set_queue (birthdayQueue w ++ [p])
                (log_event (DbInsert r)
                   (set_uuids (tl (uuids w))
                      (set_messages (birthday_messages w ++ [r])
                         (log_event
                            (DbFindByUserYear (usrId u)
                               (getFullYear (serverUtcOffset w) (nineLocal timezone_ w)))
                            (set_redis
                               (<["lock:" +:+ userLockKey u w := clock w + 300 * 1000]>
                                  (redis w))
                               w))))))))).
Proof.
  intros Hq Hfree Hnone Hch r p. unfold createAndQueueBirthdayMessage.
  rewrite (bind_get_world (B:=unit)).
  rewrite (bind_ok _ _ _ _ _ (acquireLock_free _ 300 w Hfree)). cbn [negb].
  unfold try_finally. rewrite (bind_get_world (B:=unit)).
  match goal with
  | |- context [bind (createBirthdayMessage u ?sf) ?k ?w1] =>
      change sf with (nineLocal timezone_ w);
      rewrite (bind_ok _ k _ _ _
                 (createBirthdayMessage_fresh w1 u (nineLocal timezone_ w) Hq Hnone))
  end.
  unfold publishBirthdayMessage. unfold bind at 1. rewrite (bind_get_world (B:=unit)).
  cbn [producerChannel log_event set_uuids set_messages set_redis].
  rewrite Hch. cbn [negb modify]. unfold markAsQueued.
  rewrite repo_update_quiet by still_quiet. reflexivity.
Qed.

Lemma patch_rows_app (mid : string) (now : Z)
    (f : BirthdayMessage -> BirthdayMessage) (l l' : list BirthdayMessage) :
  patch_rows mid now f (l ++ l') = patch_rows mid now f l ++ patch_rows mid now f l'.
Proof. unfold patch_rows. apply map_app. Qed.

(** X20. The per-recipient step on a recipient without a record, with
    the lock free, the producer connected, nobody else writing and an id
    from the database that no row has yet: exactly one row is added, it
    ends [queued] with no attempt, no error and no sent-at, the rows that
    were there are unchanged, and exactly one entry is appended to the
    queue, carrying the id of the record, the id and e-mail of the
    recipient and "first last" as full name. *)
Theorem createAndQueue_creates_one_queued_record
    (w : World) (u : User) (timezone_ : string) :
  others w = [] ->
  redis_exists ("lock:" +:+ userLockKey u w) w = false ->
  List.find
    (same_user_year (usrId u) (getFullYear (serverUtcOffset w) (nineLocal timezone_ w)))
    (birthday_messages w) = None ->
  producerChannel w = true ->
  List.find (has_id (hd ""%string (uuids w))) (birthday_messages w) = None ->
  let w' := after (createAndQueueBirthdayMessage u timezone_ w) in
  let mid := hd ""%string (uuids w) in
  outcome (createAndQueueBirthdayMessage u timezone_ w) = Ok tt
  /\ birthday_messages w'
     = birthday_messages w
       ++ [mkBirthdayMessage mid (usrId u)
             (getFullYear (serverUtcOffset w) (nineLocal timezone_ w))
             QUEUED BIRTHDAY (nineLocal timezone_ w) None 0 None (clock w) (clock w)]
  /\ birthdayQueue w'
     = birthdayQueue w
       ++ [mkPayload mid (usrId u) (email u) (firstName u +:+ " " +:+ lastName u)]
  /\ trace w'
     = [DbUpdateStatus mid QUEUED;
        QueuePublish
          (mkPayload mid (usrId u) (email u) (firstName u +:+ " " +:+ lastName u));
        DbInsert (new_row w u (nineLocal timezone_ w));
        DbFindByUserYear (usrId u)
          (getFullYear (serverUtcOffset w) (nineLocal timezone_ w))]
       ++ trace w.
Proof.
  intros Hq Hfree Hnone Hch Hfresh w' mid. subst w'.
  rewrite (createAndQueue_creates w u timezone_ Hq Hfree Hnone Hch).
  cbn [outcome after fst snd birthday_messages birthdayQueue trace log_event
       set_messages set_queue set_uuids set_redis new_row msgId].
  fold mid. split; [reflexivity | split; [|split; reflexivity]].
  rewrite patch_rows_app. rewrite (patch_rows_absent mid) by exact Hfresh.
  f_equal. unfold patch_rows, has_id. cbn. now rewrite String.eqb_refl.
Qed.

Lemma createAndQueue_creates_one_queued_record_witness :
  others newYearWorld = []
  /\ producerChannel newYearWorld = true
  /\ birthdayQueue
       (after (createAndQueueBirthdayMessage alice "Pacific/Kiritimati" newYearWorld))
     = [entry1].
Proof.
  split; [reflexivity | split; [reflexivity|]].
  exact (proj1 (proj2 (proj2
           (createAndQueue_creates_one_queued_record newYearWorld alice
              "Pacific/Kiritimati" eq_refl eq_refl eq_refl eq_refl eq_refl)))).
Defined.

(** One delivery of the only ready entry, when its record is not yet
    sent, its processing lock is free and the notifier answers 2xx. *)
Lemma consumeNext_sends (w : World) (p : BirthdayMessagePayload) (r : BirthdayMessage) :
  others w = [] ->
  birthdayQueue w = [p] ->
  inFlight w = [] ->
  redis_exists (processLockKey p) w = false ->
  List.find (has_id (messageId p)) (birthday_messages w) = Some r ->
  status r <> SENT ->
  notifier_ok w = true ->
  exists w',
    consumeNext w = (Ok tt, w')
    /\ birthday_messages w'
       = patch_rows (messageId p) (clock w)
           (fun x => set_status SENT (set_sentAt (Some (clock w)) x))
           (birthday_messages w)
    /\ birthdayQueue w' = [] /\ inFlight w' = [] /\ birthdayDlq w' = birthdayDlq w
    /\ timers w' = timers w
    /\ trace w'
       = [DbUpdateStatus (messageId p) SENT;
          HttpPost (payloadEmail p) (fullName p);
          DbFindById (messageId p)] ++ trace w
    /\ redis_exists (processLockKey p) w' = false.
Proof.
  intros Hq Hqueue Hfl Hfree Hfind Hnot Hok.
  unfold consumeNext, deliver. unfold bind at 1. rewrite Hqueue, Hfl.
  cbn [app]. unfold onMessage, try_catch, bind.
  rewrite (processMessage_send_ok _ p r) by (cbn; assumption).
  eexists. split; [reflexivity|].
  cbn [birthday_messages birthdayQueue inFlight birthdayDlq timers trace clock
       channel_ack modify snd unlock posted read_under_lock log_event set_messages
       set_redis set_emailApi set_inFlight set_queue settle same_entry].
  unfold same_entry. rewrite String.eqb_refl.
  repeat split; try reflexivity.
  unfold redis_exists, unlock. cbn. now rewrite lookup_delete_eq.
Qed.

Lemma processLockKey_not_userLockKey (p : BirthdayMessagePayload) (u : User) (w : World) :
  "lock:" +:+ userLockKey u w <> processLockKey p.
Proof. unfold userLockKey, processLockKey. cbn. discriminate. Qed.

(** X21. From the scan to the sent record. A recipient without a record
    is reached by the per-recipient step with the lock free, the producer
    connected, the queue empty, nobody else writing and a fresh id; the
    broker then delivers the entry, the processing lock being free and
    the notifier answering 2xx. Afterwards the ledger holds exactly one
    new row, [sent] with its sent-at set and no attempt counted; the
    notifier was called once, with the recipient's e-mail and full name;
    the queue, the in-flight list and the dead-letter queue are as
    before; and the processing lock is free again. *)
Theorem scan_then_delivery_sends_once
    (w : World) (u : User) (timezone_ : string) :
  others w = [] ->
  redis_exists ("lock:" +:+ userLockKey u w) w = false ->
  List.find
    (same_user_year (usrId u) (getFullYear (serverUtcOffset w) (nineLocal timezone_ w)))
    (birthday_messages w) = None ->
  producerChannel w = true ->
  List.find (has_id (hd ""%string (uuids w))) (birthday_messages w) = None ->
  birthdayQueue w = [] ->
  inFlight w = [] ->
  notifier_ok w = true ->
  redis_exists ("lock:" +:+ ("process-" +:+ hd ""%string (uuids w))) w = false ->
  let mid := hd ""%string (uuids w) in
  let w1 := after (createAndQueueBirthdayMessage u timezone_ w) in
  let w2 := after (consumeNext w1) in
  outcome (consumeNext w1) = Ok tt
  /\ birthday_messages w2
     = birthday_messages w
       ++ [mkBirthdayMessage mid (usrId u)
             (getFullYear (serverUtcOffset w) (nineLocal timezone_ w))
             SENT BIRTHDAY (nineLocal timezone_ w) (Some (clock w)) 0 None
             (clock w) (clock w)]
  /\ posts w2 = S (posts w)
  /\ trace w2
     = [DbUpdateStatus mid SENT;
        HttpPost (email u) (firstName u +:+ " " +:+ lastName u);
        DbFindById mid] ++ trace w1
  /\ birthdayQueue w2 = [] /\ inFlight w2 = [] /\ birthdayDlq w2 = birthdayDlq w
  /\ redis_exists ("lock:" +:+ ("process-" +:+ mid)) w2 = false.
Proof.
  intros Hq Hfree Hnone Hch Hfresh Hqueue Hfl Hok Hpfree mid w1 w2.
  set (p := payloadFor mid (usrId u) u).
  set (rq := mkBirthdayMessage mid (usrId u)
               (getFullYear (serverUtcOffset w) (nineLocal timezone_ w))
               QUEUED BIRTHDAY (nineLocal timezone_ w) None 0 None (clock w) (clock w)).
  assert (Hw1 := createAndQueue_creates w u timezone_ Hq Hfree Hnone Hch).
  cbv zeta in Hw1. cbn [new_row msgId] in Hw1. fold mid in Hw1. fold p in Hw1.
  assert (Hmsgs1 : birthday_messages w1 = birthday_messages w ++ [rq]).
  { subst w1. rewrite Hw1. cbn [after snd birthday_messages log_event set_messages].
    rewrite patch_rows_app. rewrite (patch_rows_absent mid) by exact Hfresh.
    f_equal. unfold patch_rows, has_id. cbn. now rewrite String.eqb_refl. }
  assert (Hfind1 : List.find (has_id (messageId p)) (birthday_messages w1) = Some rq).
  { rewrite Hmsgs1. cbn [messageId p payloadFor].
    rewrite find_app_none by exact Hfresh. cbn. unfold has_id. cbn.
    now rewrite String.eqb_refl. }
  assert (Hlock1 : redis_exists (processLockKey p) w1 = false).
  { subst w1. rewrite Hw1. unfold redis_exists.
    cbn [after snd redis clock log_event set_messages set_queue set_uuids set_redis].
    rewrite lookup_insert_ne by apply processLockKey_not_userLockKey.
    exact Hpfree. }
  destruct (consumeNext_sends w1 p rq) as [wf [Hrun [Hm [Hqf [Hff [Hdf [_ [Htr Hlf]]]]]]]];
    try (subst w1; rewrite Hw1; cbn; assumption).
  - subst w1. rewrite Hw1. cbn. now rewrite Hqueue.
  - exact Hlock1.
  - exact Hfind1.
  - discriminate.
  - subst w2. rewrite Hrun. cbn [outcome after fst snd].
    assert (Hclock : clock w1 = clock w) by (subst w1; now rewrite Hw1).
    split; [reflexivity | split; [|split; [|split; [exact Htr|]]]].
    + rewrite Hm, Hmsgs1, Hclock. cbn [messageId p payloadFor].
      rewrite patch_rows_app. rewrite (patch_rows_absent mid) by exact Hfresh.
      f_equal. unfold patch_rows, has_id. cbn. now rewrite String.eqb_refl.
    + unfold posts. rewrite Htr. subst w1. rewrite Hw1. reflexivity.
    + split; [exact Hqf | split; [exact Hff | split; [|exact Hlf]]].
      rewrite Hdf. subst w1. now rewrite Hw1.
Qed.

Lemma scan_then_delivery_sends_once_witness :
  others newYearWorld = []
  /\ notifier_ok newYearWorld = true
  /\ outcome (consumeNext
                (after (createAndQueueBirthdayMessage alice "Pacific/Kiritimati"
                          newYearWorld))) = Ok tt.
Proof.
  split; [reflexivity | split; [reflexivity|]].
  exact (proj1 (scan_then_delivery_sends_once newYearWorld alice "Pacific/Kiritimati"
                  eq_refl eq_refl eq_refl eq_refl eq_refl eq_refl eq_refl eq_refl
                  eq_refl)).
Defined.

(** X22. The backoff keeps the entry away for its whole delay. After a
    failure whose attempt count, as [handleFailure] reads it, is below
    the ceiling, with no other timer pending and nobody else writing:
    while less than the delay of the schedule has passed, the entry is
    neither back in the queue nor settled (it stays unacknowledged with
    the consumer) and its timer is still waiting; once the delay has
    passed, the timer has fired: the entry is settled and stands at the
    head of the queue, before the entries that were waiting there. In
    neither case is it dead-lettered. *)
Theorem failed_entry_returns_after_its_delay
    (w : World) (msg payload : BirthdayMessagePayload) (error : Error) (d : Z) :
  others w = [] ->
  0 <= attemptsRead payload w < MAX_RETRY_ATTEMPTS ->
  timers w = [] ->
  0 <= d ->
  let w' := after (handleFailure msg payload error w) in
  exists delay,
    nth_error RETRY_DELAYS (Z.to_nat (attemptsRead payload w)) = Some delay
    /\ (d < delay ->
        birthdayQueue (elapse d w') = birthdayQueue w
        /\ inFlight (elapse d w') = inFlight w
        /\ timers (elapse d w') = [(clock w + delay, msg)]
        /\ birthdayDlq (elapse d w') = birthdayDlq w)
    /\ (delay <= d ->
        birthdayQueue (elapse d w') = msg :: birthdayQueue w
        /\ inFlight (elapse d w') = settle msg (inFlight w)
        /\ timers (elapse d w') = []
        /\ birthdayDlq (elapse d w') = birthdayDlq w).
Proof.
  intros Hq Ha Htimers Hd w'.
  destruct (retryDelay_in_schedule _ Ha) as [delay [Hnth Hdelay]].
  exists delay. split; [exact Hnth|].
  subst w'. rewrite handleFailure_quiet by exact Hq. cbv zeta.
  assert (Hlt : (MAX_RETRY_ATTEMPTS <=? attemptsRead payload w) = false)
    by (apply Z.leb_gt; lia).
  rewrite Hlt, Hdelay. rewrite markAsFailed_quiet by still_quiet.
  unfold elapse.
  cbn [after snd timers clock log_event set_messages set_timers set_clock default app
       List.filter fst].
  rewrite Htimers. cbn [app List.filter fst]. unfold id.
  split; intros Hcmp.
  - assert (Hb : (clock w + delay <=? clock w + d) = false) by (apply Z.leb_gt; lia).
    rewrite Hb. cbn. repeat split; reflexivity.
  - assert (Hb : (clock w + delay <=? clock w + d) = true) by (apply Z.leb_le; lia).
    rewrite Hb. cbn. repeat split; reflexivity.
Qed.

Lemma failed_entry_returns_after_its_delay_witness :
  others queuedWorld = []
  /\ exists delay,
       nth_error RETRY_DELAYS (Z.to_nat (attemptsRead entry1 queuedWorld)) = Some delay.
Proof.
  split; [reflexivity|].
  assert (Ha : 0 <= attemptsRead entry1 queuedWorld < MAX_RETRY_ATTEMPTS)
    by (vm_compute; split; [discriminate | reflexivity]).
  assert (Hd : 0 <= 1000) by lia.
  destruct (failed_entry_returns_after_its_delay queuedWorld entry1 entry1 http500 1000
              eq_refl Ha eq_refl Hd) as [delay [Hnth _]].
  exists delay. exact Hnth.
Defined.
